(** * useRequest: a reactive request composable over [uni.request]

    A shallow embedding of [src/composables/useRequest.ts].

    The composable keeps five reactive cells ([response], [data],
    [isFinished], [isLoading], [error]) and one closure variable
    ([executeCounter]).  [execute] writes to them synchronously and
    attaches a [then]/[catch]/[finally] chain to the transport promise;
    the three handlers run later, one event-loop turn each.  The model
    threads the cells explicitly through [execute] and the handlers and
    records every call that leaves the composable (the transport, the
    toast, the user callbacks) in an effect log.

    Conventions of the model:
    - JavaScript values are [jsval]; objects are finite maps from property
      names to values.  Numbers are integers.  A string is the UTF-8 bytes
      of its text (a lone surrogate in its three-byte form); a byte string
      that is not of this form stands for no JavaScript string.
    - User callbacks are opaque: calling one appends a [Call] entry to the
      log and returns normally (a callback neither throws nor re-enters
      the composable while it runs).
    - A statement that throws ends the running function; the writes made
      before it persist.  This is the [Throw] completion. *)

From stdpp Require Import gmap strings list fin_maps pretty.

#[local] Open Scope string_scope.
#[local] Open Scope list_scope.
#[local] Open Scope nat_scope.

(** ** JavaScript values *)

#[local] Set Warnings "-register-all".

Inductive jsval : Type :=
  | JUndefined
  | JNull
  | JBool (b : bool)
  | JNum (n : Z)
  | JStr (s : string)
  | JFun (name : string)
  | JObj (props : gmap string jsval).

(** [ToBoolean]: what [if (v)], [v ? a : b], [v && w] and [v || w] test. *)
Definition truthy (v : jsval) : bool :=
  match v with
  | JUndefined | JNull => false
  | JBool b => b
  | JNum n => negb (n =? 0)%Z
  | JStr s => negb (String.eqb s EmptyString)
  | JFun _ | JObj _ => true
  end.

(** [a || b] *)
Definition js_or (a b : jsval) : jsval := if truthy a then a else b.

Definition TypeError : jsval := JObj {[ "name" := JStr "TypeError" ]}.

(** [v.k] for the property names this module reads ([url], [data], [msg]
    and the option names).  Reading a property of [undefined] or [null]
    throws ([None]); none of these names is a property of a string, a
    number, a boolean or a function, so those read as [undefined]. *)
Definition get_prop (v : jsval) (k : string) : option jsval :=
  match v with
  | JUndefined | JNull => None
  | JObj o => Some (default JUndefined (o !! k))
  | _ => Some JUndefined
  end.

(** A code unit as a string: the three-byte form of [u], for a
    surrogate [u]. *)
Definition surrogate (u : N) : string :=
  String.string_of_list_ascii
    [Ascii.ascii_of_N (224 + u / 4096);
     Ascii.ascii_of_N (128 + (u / 64) mod 64);
     Ascii.ascii_of_N (128 + u mod 64)]%N.

(** The two code units of the character above U+FFFF that the four bytes
    [a b c d] encode. *)
Definition surrogate_pair (a b c d : Ascii.ascii) : list string :=
  let cp := ((Ascii.N_of_ascii a mod 8) * 262144
             + (Ascii.N_of_ascii b mod 64) * 4096
             + (Ascii.N_of_ascii c mod 64) * 64
             + Ascii.N_of_ascii d mod 64)%N in
  let v := (cp - 65536)%N in
  [surrogate (55296 + v / 1024); surrogate (56320 + v mod 1024)]%N.

(** The UTF-16 code units of a string, each as a string of its own: what
    [s[0]], [s[1]], ... are.  A character of one, two or three bytes is
    one code unit; a character of four bytes is two. *)
Fixpoint code_units (l : list Ascii.ascii) : list string :=
  match l with
  | [] => []
  | a :: l1 =>
      if (Ascii.N_of_ascii a <? 192)%N then
        String.string_of_list_ascii [a] :: code_units l1
      else
        match l1 with
        | [] => [String.string_of_list_ascii [a]]
        | b :: l2 =>
            if (Ascii.N_of_ascii a <? 224)%N then
              String.string_of_list_ascii [a; b] :: code_units l2
            else
              match l2 with
              | [] => [String.string_of_list_ascii [a; b]]
              | c :: l3 =>
                  if (Ascii.N_of_ascii a <? 240)%N then
                    String.string_of_list_ascii [a; b; c] :: code_units l3
                  else
                    match l3 with
                    | [] => [String.string_of_list_ascii [a; b; c]]
                    | d :: l4 => surrogate_pair a b c d ++ code_units l4
                    end
              end
        end
  end.

(** The own enumerable properties that an object spread [{...v}] copies.
    A string spreads into its code units under the keys "0", "1", ...;
    the other primitives and [undefined]/[null] contribute nothing. *)
Definition string_props (s : string) : gmap string jsval :=
  list_to_map
    (imap (fun (i : nat) (c : string) => (pretty i, JStr c))
          (code_units (String.list_ascii_of_string s))).

Definition own_props (v : jsval) : gmap string jsval :=
  match v with
  | JObj o => o
  | JStr s => string_props s
  | _ => ∅
  end.

(** ** Completions *)

Inductive Completion (A : Type) : Type :=
  | Normal (a : A)
  | Throw (e : jsval) (a : A).
Arguments Normal {A} a.
Arguments Throw {A} e a.

(** The state a function leaves behind, however it ended. *)
Definition after {A : Type} (c : Completion A) : A :=
  match c with
  | Normal a => a
  | Throw _ a => a
  end.

Definition returns {A : Type} (c : Completion A) : bool :=
  match c with
  | Normal _ => true
  | Throw _ _ => false
  end.

(** ** The request interceptor *)

Module httpInterceptor.
(** How a call of the interceptor ends: it returns, having rewritten the
    options; or [options.url.startsWith(...)] throws because there is
    nothing to call; or [url] is an object that brings a [startsWith] of
    its own, and what happens next is up to that function, which the
    model does not follow. *)
Inductive Invoked : Type :=
  | Rewritten (options : gmap string jsval)
  | Threw
  | Foreign (startsWith : string).

Section Invoke.
(** [import.meta.env.VITE_BASE_URL] *)
Variable baseURL : string.

(** [httpInterceptor.invoke(options)], registered for "request" and
    "uploadFile": it rewrites the options the transport was called with.
    A relative address gets the base URL in front, the timeout is forced,
    and the client header is added to the headers; the token is the empty
    string, so no [Authorization] header is set.  The first statement
    calls [options.url.startsWith]: a string has that method; a missing
    [url], [undefined], [null], a number, a boolean, a function and an
    object without a function under [startsWith] have not, and the call
    throws. *)
Definition invoke (options : gmap string jsval) : Invoked :=
  match options !! "url" with
  | Some (JStr u) =>
      let options :=
        if String.prefix "http" u then options
        else <[ "url" := JStr (String.append baseURL u) ]> options in
      let options := <[ "timeout" := JNum 10000 ]> options in
      let header := own_props (default JUndefined (options !! "header")) in
      Rewritten (<[ "header" :=
                      JObj (<[ "source-client" := JStr "miniprogram" ]> header) ]>
                   options)
  | Some (JObj url) =>
      match url !! "startsWith" with
      | Some (JFun f) => Foreign f
      | _ => Threw
      end
  | _ => Threw
  end.
End Invoke.
End httpInterceptor.

(** ** The transport's response and the composable's environment *)

(** [UniApp.RequestSuccessCallbackResult] *)
Module Res.
Record t : Type := {
  data : jsval;
  statusCode : Z;
  header : jsval;
  cookies : list string;
}.
End Res.

(** What [useRequest] fixes once and [execute] and the handlers close
    over: the bound address, the default config and the destructured
    options. *)
Record Instance : Type := {
  url : option string;
  defaultConfig : jsval;
  initialData : jsval;
  shallow : jsval;
  immediate : jsval;
  resetOnExecute : jsval;
  onSuccess : jsval;
  onError : jsval;
  onFinish : jsval;
}.

(** [(shallow ? shallowRef : ref)]: which kind of cell holds [data]. *)
Inductive CellKind : Type := shallowRef | ref.

Definition data_cell (inst : Instance) : CellKind :=
  if truthy (shallow inst) then shallowRef else ref.

(** Calls that leave the composable, oldest first. *)
Inductive Effect : Type :=
  | Request (options : gmap string jsval)
  | ShowToast (options : gmap string jsval)
  | Call (f : string) (args : list jsval).

(** Where the promise chain [instance(...).then(...).catch(...).finally(...)]
    started by [execute] stands: the transport promise is unsettled; the
    [then] handler threw [e] and the [catch] handler is queued; or the
    [finally] handler is queued. *)
Inductive Phase : Type :=
  | AwaitsTransport
  | AwaitsCatch (e : jsval)
  | AwaitsFinally.

(** The reactive cells, the closure variable [executeCounter], the promise
    chains in progress (keyed by the [currentExecuteCounter] each one
    captured) and the effect log. *)
Record State : Type := {
  response : option Res.t;
  data : jsval;
  isFinished : bool;
  isLoading : bool;
  error : jsval;
  executeCounter : nat;
  chains : gmap nat Phase;
  effects : list Effect;
}.

Definition set_response (r : option Res.t) (st : State) : State :=
  {| response := r; data := data st; isFinished := isFinished st;
     isLoading := isLoading st; error := error st;
     executeCounter := executeCounter st; chains := chains st;
     effects := effects st |}.

Definition set_data (d : jsval) (st : State) : State :=
  {| response := response st; data := d; isFinished := isFinished st;
     isLoading := isLoading st; error := error st;
     executeCounter := executeCounter st; chains := chains st;
     effects := effects st |}.

Definition set_isFinished (b : bool) (st : State) : State :=
  {| response := response st; data := data st; isFinished := b;
     isLoading := isLoading st; error := error st;
     executeCounter := executeCounter st; chains := chains st;
     effects := effects st |}.

Definition set_isLoading (b : bool) (st : State) : State :=
  {| response := response st; data := data st; isFinished := isFinished st;
     isLoading := b; error := error st;
     executeCounter := executeCounter st; chains := chains st;
     effects := effects st |}.

Definition set_error (e : jsval) (st : State) : State :=
  {| response := response st; data := data st; isFinished := isFinished st;
     isLoading := isLoading st; error := e;
     executeCounter := executeCounter st; chains := chains st;
     effects := effects st |}.

Definition set_executeCounter (n : nat) (st : State) : State :=
  {| response := response st; data := data st; isFinished := isFinished st;
     isLoading := isLoading st; error := error st;
     executeCounter := n; chains := chains st;
     effects := effects st |}.

Definition set_chains (c : gmap nat Phase) (st : State) : State :=
  {| response := response st; data := data st; isFinished := isFinished st;
     isLoading := isLoading st; error := error st;
     executeCounter := executeCounter st; chains := c;
     effects := effects st |}.

Definition emit (e : Effect) (st : State) : State :=
  {| response := response st; data := data st; isFinished := isFinished st;
     isLoading := isLoading st; error := error st;
     executeCounter := executeCounter st; chains := chains st;
     effects := effects st ++ [e] |}.

(** [f?.(...args)]: skipped when [f] is [undefined] or [null]; calling a
    value that is not a function throws. *)
Definition call_opt (f : jsval) (args : list jsval) (st : State)
  : Completion State :=
  match f with
  | JUndefined | JNull => Normal st
  | JFun name => Normal (emit (Call name args) st)
  | _ => Throw TypeError st
  end.

(** [uni.showToast({ icon: "none", title })] *)
Definition showToast (title : jsval) (st : State) : State :=
  emit (ShowToast {[ "icon" := JStr "none"; "title" := title ]}) st.

(** A parameter default [(p = d)]: it applies when the argument is
    [undefined], which is also what an omitted argument is. *)
Definition with_default (v d : jsval) : jsval :=
  match v with
  | JUndefined => d
  | _ => v
  end.

(** ** The closures of [useRequest] *)

Section Closures.
Variable inst : Instance.

(** [const loading = (loading) => { isLoading.value = loading;
    isFinished.value = !loading }] *)
Definition loading (b : bool) (st : State) : State :=
  set_isFinished (negb b) (set_isLoading b st).

(** [const resetData = () => { if (resetOnExecute) data.value = initialData }] *)
Definition resetData (st : State) : State :=
  if truthy (resetOnExecute inst) then set_data (initialData inst) st else st.

(** The bound address as a value: [url] is a string or [undefined]. *)
Definition url_value : jsval :=
  match url inst with
  | Some u => JStr u
  | None => JUndefined
  end.

(** [typeof executeUrl === "string" ? executeUrl : url ?? config.url],
    after the parameter defaults [executeUrl = url] and [config = {}].
    [None] when reading [config.url] throws. *)
Definition resolve_url (executeUrl config : jsval) : option jsval :=
  let executeUrl := with_default executeUrl url_value in
  let config := with_default config (JObj ∅) in
  match executeUrl with
  | JStr s => Some (JStr s)
  | _ =>
      match url inst with
      | Some u => Some (JStr u)
      | None => get_prop config "url"
      end
  end.

(** The argument of [instance(...)]: [{ url: _url, ...defaultConfig }].
    The spread comes last, so its properties win ([∪] keeps the left
    map's entry on a shared key). *)
Definition descriptor (_url : jsval) : gmap string jsval :=
  own_props (defaultConfig inst) ∪ {[ "url" := _url ]}.

(** The synchronous part of [execute]. *)
Definition execute (executeUrl config : jsval) (st : State)
  : Completion State :=
  let st := set_error JUndefined st in
  match resolve_url executeUrl config with
  | None => Throw TypeError st
  | Some JUndefined =>
      Normal (set_isFinished true (set_error (JStr "ERR_INVALID_URL") st))
  | Some _url =>
      let st := resetData st in
      let st := loading true st in
      let st := set_executeCounter (executeCounter st + 1) st in
      let currentExecuteCounter := executeCounter st in
      let st := emit (Request (descriptor _url)) st in
      Normal (set_chains (<[currentExecuteCounter := AwaitsTransport]> (chains st)) st)
  end.

(** [.then((res) => { ... })] *)
Definition onFulfilled (res : Res.t) (st : State) : Completion State :=
  if ((200 <=? Res.statusCode res) && (Res.statusCode res <? 300))%Z then
    let st := set_response (Some res) st in
    match get_prop (Res.data res) "data" with
    | None => Throw TypeError st
    | Some d =>
        let st := set_data d st in
        call_opt (onSuccess inst) [data st] st
    end
  else if (Res.statusCode res =? 401)%Z then Normal st
  else
    match get_prop (Res.data res) "msg" with
    | None => Throw TypeError st
    | Some msg =>
        let st := showToast (js_or msg (JStr "请求错误")) st in
        call_opt (onError inst) [js_or msg (JStr "请求错误")] st
    end.

(** [.catch((e) => { ... })] *)
Definition onRejected (e : jsval) (st : State) : Completion State :=
  let st := set_error e st in
  let st := showToast (JStr "网络错误") st in
  call_opt (onError inst) [e] st.

(** [.finally(() => { ... })], with the [currentExecuteCounter] the chain
    captured. *)
Definition onFinally (currentExecuteCounter : nat) (st : State)
  : Completion State :=
  if Nat.eqb currentExecuteCounter (executeCounter st) then
    call_opt (onFinish inst) [] (loading false st)
  else Normal st.
End Closures.

(** ** The event loop *)

(** What can happen to an instance between two observations: a caller
    runs [execute], or one handler of one chain runs.  The transport
    promise of chain [k] fulfils and its [then] handler runs ([Fulfil]) or
    it rejects and the [catch] handler runs ([Reject]); a [then] handler
    that threw is followed by the [catch] handler ([Catch]); last comes the
    [finally] handler ([Finally]).  Turns of other chains and calls of
    [execute] may come in between.  [Execute JUndefined JUndefined] is
    [execute()]. *)
Inductive Action : Type :=
  | Execute (executeUrl config : jsval)
  | Fulfil (k : nat) (res : Res.t)
  | Reject (k : nat) (e : jsval)
  | Catch (k : nat)
  | Finally (k : nat).

(** One turn.  [None] when the action cannot happen in [st], that is when
    chain [k] is not in the phase the handler waits for.  A handler or an
    [execute] that throws leaves the writes it made. *)
Definition step (inst : Instance) (a : Action) (st : State) : option State :=
  match a with
  | Execute executeUrl config => Some (after (execute inst executeUrl config st))
  | Fulfil k res =>
      match chains st !! k with
      | Some AwaitsTransport =>
          match onFulfilled inst res st with
          | Normal st => Some (set_chains (<[k := AwaitsFinally]> (chains st)) st)
          | Throw e st => Some (set_chains (<[k := AwaitsCatch e]> (chains st)) st)
          end
      | _ => None
      end
  | Reject k e =>
      match chains st !! k with
      | Some AwaitsTransport =>
          let st := after (onRejected inst e st) in
          Some (set_chains (<[k := AwaitsFinally]> (chains st)) st)
      | _ => None
      end
  | Catch k =>
      match chains st !! k with
      | Some (AwaitsCatch e) =>
          let st := after (onRejected inst e st) in
          Some (set_chains (<[k := AwaitsFinally]> (chains st)) st)
      | _ => None
      end
  | Finally k =>
      match chains st !! k with
      | Some AwaitsFinally =>
          let st := after (onFinally inst k st) in
          Some (set_chains (delete k (chains st)) st)
      | _ => None
      end
  end.

Fixpoint run (inst : Instance) (l : list Action) (st : State) : option State :=
  match l with
  | [] => Some st
  | a :: l' =>
      match step inst a st with
      | Some st' => run inst l' st'
      | None => None
      end
  end.

(** ** The thenable *)

Inductive Settlement : Type :=
  | Pending
  | Resolved
  | Rejected (reason : jsval).

(** Modelled from the spec: [until], imported from "@/shared", is not part
    of the sources at hand.  The spec describes it as a wait that lasts
    until a predicate on a reactive cell holds.  [until(c).toBe(v)] is
    called in some state and its promise is fulfilled in the first state
    from then on in which cell [c] holds [v].  Over the successive states
    [sts] of the instance, the first being the state of the call, this is
    the position of that state; [None] while the wait goes on. *)
Fixpoint until_toBe (c : State -> bool) (v : bool) (sts : list State)
  : option nat :=
  match sts with
  | [] => None
  | st :: sts' =>
      if Bool.eqb (c st) v then Some 0 else S <$> until_toBe c v sts'
  end.

(** The callback [() => (error.value ? reject(error.value) :
    resolve(result))], run in state [st]. *)
Definition settle (st : State) : Settlement :=
  if truthy (error st) then Rejected (error st) else Resolved.

(** [waitUntilFinished()].  [promise.then] and [promise.catch] call it
    anew each time, and [promise] is one object that every call of
    [execute] returns: what a caller gets depends on when it calls [then],
    not on the call of [execute] that handed it the thenable.  [sts] are
    the successive states of the instance from the state of that call on.
    Once the wait on [isFinished] is over, the callback that settles the
    promise is queued; it runs [delay] turns later and reads [error] in the
    state of that moment, without looking at [isFinished] again.  The
    promise is pending while the wait goes on or the callback has not
    run. *)
Definition waitUntilFinished (sts : list State) (delay : nat) : Settlement :=
  match until_toBe isFinished true sts with
  | None => Pending
  | Some woken =>
      match sts !! (woken + delay) with
      | Some st => settle st
      | None => Pending
      end
  end.

(** ** Construction *)

(** The cells as [useRequest] creates them. *)
Definition fresh (initialData : jsval) : State :=
  {| response := None; data := initialData; isFinished := false;
     isLoading := false; error := JUndefined; executeCounter := 0;
     chains := ∅; effects := [] |}.

(** [args[i]] *)
Definition arg (args : list jsval) (i : nat) : jsval :=
  default JUndefined (args !! i).

(** [useRequest(...args)].  [None] when destructuring [options] throws
    (the last argument is [undefined] or [null]).  The state returned is
    the one the caller first observes, after the automatic [execute()]
    when there is one. *)
Definition useRequest (args : list jsval) : option (Instance * State) :=
  let url := match arg args 0 with JStr s => Some s | _ => None end in
  let argsPlaceholder := match url with Some _ => 1 | None => 0 end in
  let defaultConfig :=
    if decide (0 + argsPlaceholder < length args)
    then arg args (0 + argsPlaceholder) else JObj ∅ in
  let options :=
    if Nat.eqb (length args) (2 + argsPlaceholder)
       || Nat.eqb (length args) (3 + argsPlaceholder)
    then arg args (length args - 1)
    else JObj {[ "immediate" := JBool (negb (Nat.eqb argsPlaceholder 0));
                 "shallow" := JBool true ]} in
  initialData ← get_prop options "initialData";
  shallow ← get_prop options "shallow";
  immediate ← get_prop options "immediate";
  resetOnExecute ← get_prop options "resetOnExecute";
  onSuccess ← get_prop options "onSuccess";
  onError ← get_prop options "onError";
  onFinish ← get_prop options "onFinish";
  let inst :=
    {| url := url; defaultConfig := defaultConfig;
       initialData := initialData; shallow := shallow;
       immediate := immediate;
       resetOnExecute := with_default resetOnExecute (JBool false);
       onSuccess := onSuccess; onError := onError; onFinish := onFinish |} in
  let st := fresh initialData in
  Some (inst,
        if truthy immediate && truthy (url_value inst)
        then after (execute inst JUndefined JUndefined st)
        else st).

(** ** Vocabulary of the statements *)

(** [execute] goes on to the transport: an address resolved. *)
Definition reaches_transport (inst : Instance) (executeUrl config : jsval)
  : bool :=
  match resolve_url inst executeUrl config with
  | None | Some JUndefined => false
  | Some _ => true
  end.

(** [execute] returns and so writes a loading flag: it does not throw
    while resolving the address. *)
Definition transitions (inst : Instance) (a : Action) : bool :=
  match a with
  | Execute executeUrl config =>
      match resolve_url inst executeUrl config with
      | Some _ => true
      | None => false
      end
  | _ => false
  end.

(** In state [st], action [a] is not an [execute] that resolves no address
    while a request is loading. *)
Definition calm_turn (inst : Instance) (a : Action) (st : State) : bool :=
  match a with
  | Execute executeUrl config =>
      match resolve_url inst executeUrl config with
      | Some JUndefined => negb (isLoading st)
      | _ => true
      end
  | _ => true
  end.

(** Every turn of [l], taken from [st], is calm. *)
Fixpoint calm (inst : Instance) (l : list Action) (st : State) : bool :=
  match l with
  | [] => true
  | a :: l' =>
      calm_turn inst a st
      && match step inst a st with
         | Some st' => calm inst l' st'
         | None => true
         end
  end.

(** The turns of the chain that captured generation [k]. *)
Definition of_chain (k : nat) (a : Action) : bool :=
  match a with
  | Execute _ _ => false
  | Fulfil k' _ | Reject k' _ | Catch k' | Finally k' => Nat.eqb k k'
  end.

(** The states an observer sees, one after each turn. *)
Fixpoint trace (inst : Instance) (l : list Action) (st : State) : list State :=
  match l with
  | [] => []
  | a :: l' =>
      match step inst a st with
      | Some st' => st' :: trace inst l' st'
      | None => []
      end
  end.

(** [argsPlaceholder], as a function of the arguments. *)
Definition placeholder (args : list jsval) : nat :=
  match arg args 0 with
  | JStr _ => 1
  | _ => 0
  end.

(** The toast of the [else] branch and of the [catch] handler. *)
Definition toast (title : jsval) : Effect :=
  ShowToast {[ "icon" := JStr "none"; "title" := title ]}.

(** A response with the given status and envelope [{ code, msg, data }]. *)
Definition reply (status : Z) (code msg : string) (d : jsval) : Res.t :=
  {| Res.data := JObj {[ "code" := JStr code; "msg" := JStr msg; "data" := d ]};
     Res.statusCode := status;
     Res.header := JObj ∅;
     Res.cookies := [] |}.

(** The failure object of [uni.request]: [{ errMsg }]. *)
Definition failure (errMsg : string) : jsval :=
  JObj {[ "errMsg" := JStr errMsg ]}.

(** [useRequest()]: no bound address, default options. *)
Definition easy : Instance :=
  {| url := None; defaultConfig := JObj ∅; initialData := JUndefined;
     shallow := JBool true; immediate := JBool false;
     resetOnExecute := JBool false;
     onSuccess := JUndefined; onError := JUndefined; onFinish := JUndefined |}.

(** [useRequest({ timeout: 5000 }, { onSuccess, onError, onFinish })] *)
Definition observed : Instance :=
  {| url := None; defaultConfig := JObj {[ "timeout" := JNum 5000 ]};
     initialData := JUndefined;
     shallow := JUndefined; immediate := JUndefined;
     resetOnExecute := JBool false;
     onSuccess := JFun "onSuccess"; onError := JFun "onError";
     onFinish := JFun "onFinish" |}.

(** A request is in flight on [easy]: the state after [execute("/a")]. *)
Definition easy_loading : State :=
  after (execute easy (JStr "/a") JUndefined (fresh JUndefined)).

(** A request is in flight on [observed]. *)
Definition observed_loading : State :=
  after (execute observed (JStr "/a") JUndefined (fresh JUndefined)).

(** The instance [useRequest(u)] and [useRequest(u, config)] build. *)
Definition strict_mode (u : string) (config : jsval) : Instance :=
  {| url := Some u; defaultConfig := config; initialData := JUndefined;
     shallow := JBool true; immediate := JBool true;
     resetOnExecute := JBool false;
     onSuccess := JUndefined; onError := JUndefined; onFinish := JUndefined |}.

(** ** The earlier variant of the handlers *)

(** The copy of the composable kept in [shime-uni.d.ts] takes no
    callbacks.  Its [execute] reads the same up to the promise chain, so
    [execute] above stands for it too; the three handlers differ and are
    given here.  [new Error(...)] is the host's constructor. *)
Module Legacy.
Section Handlers.
Variable new_Error : jsval -> jsval.

(** [.then((res) => { ... })] *)
Definition onFulfilled (res : Res.t) (st : State) : Completion State :=
  if ((200 <=? Res.statusCode res) && (Res.statusCode res <? 300))%Z then
    let st := set_response (Some res) st in
    match get_prop (Res.data res) "data" with
    | None => Throw TypeError st
    | Some d => Normal (set_data d st)
    end
  else if (Res.statusCode res =? 401)%Z then Normal st
  else
    match get_prop (Res.data res) "msg" with
    | None => Throw TypeError st
    | Some msg => Normal (showToast (js_or msg (JStr "请求错误")) st)
    end.

(** [.catch((e) => { ...; throw new Error(e.errMsg) })] *)
Definition onRejected (e : jsval) (st : State) : Completion State :=
  let st := set_error e st in
  let st := showToast (JStr "网络错误") st in
  match get_prop e "errMsg" with
  | None => Throw TypeError st
  | Some errMsg => Throw (new_Error errMsg) st
  end.

(** [.finally(() => { if (currentExecuteCounter === executeCounter)
    loading(false) })] *)
Definition onFinally (currentExecuteCounter : nat) (st : State)
  : Completion State :=
  if Nat.eqb currentExecuteCounter (executeCounter st) then
    Normal (loading false st)
  else Normal st.
End Handlers.
End Legacy.

(** ** Vocabulary of the further statements *)

(** A value [f?.()] can be applied to without throwing. *)
Definition callable_or_absent (f : jsval) : bool :=
  match f with
  | JUndefined | JNull | JFun _ => true
  | _ => false
  end.

(** The transport calls in a log. *)
Fixpoint count_requests (l : list Effect) : nat :=
  match l with
  | [] => 0
  | Request _ :: l' => S (count_requests l')
  | _ :: l' => count_requests l'
  end.

(** [useRequest({}, { resetOnExecute: true, initialData: 0 })] *)
Definition resetting : Instance :=
  {| url := None; defaultConfig := JObj ∅; initialData := JNum 0;
     shallow := JUndefined; immediate := JUndefined;
     resetOnExecute := JBool true;
     onSuccess := JUndefined; onError := JUndefined; onFinish := JUndefined |}.

(** What holds of every state reached from a new instance: the chains in
    progress carry generations between 1 and the counter, the counter is
    the number of transport calls made, and [isLoading] is true exactly
    while the chain of the latest generation is still in progress. *)
Definition Consistent (st : State) : Prop :=
  (∀ k p, chains st !! k = Some p → 1 ≤ k ≤ executeCounter st) ∧
  count_requests (effects st) = executeCounter st ∧
  (isLoading st = true ↔ is_Some (chains st !! executeCounter st)).

(** * Properties *)

Lemma undefined_or_not (v : jsval) : v = JUndefined ∨ v ≠ JUndefined.
Proof. destruct v; (left; reflexivity) || (right; discriminate). Qed.

(** ** The interceptor *)

(** Whatever timeout the descriptor carries, the interceptor replaces it,
    and the address it leaves is absolute or prefixed with the base URL. *)
Lemma invoke_forces_timeout baseURL options options' :
  httpInterceptor.invoke baseURL options = httpInterceptor.Rewritten options' →
  options' !! "timeout" = Some (JNum 10000) ∧
  ∃ u, options !! "url" = Some (JStr u) ∧
       options' !! "url" =
         Some (JStr (if String.prefix "http" u then u
                     else String.append baseURL u)).
Proof.
  unfold httpInterceptor.invoke.
  destruct (options !! "url") as [[| | | |s| |p]|] eqn:Hu; try discriminate;
    [|destruct (p !! "startsWith") as [[]|]; discriminate].
  intros [= <-]. split.
  - rewrite lookup_insert_ne by discriminate. apply lookup_insert_eq.
  - eexists. split; [reflexivity|].
    rewrite !lookup_insert_ne by discriminate.
    destruct (String.prefix "http" s); [exact Hu|apply lookup_insert_eq].
Qed.

(** ** What the handlers leave alone *)

Section Frames.
Variable inst : Instance.

Lemma call_opt_frame f args st :
  let st' := after (call_opt f args st) in
  response st' = response st ∧ data st' = data st ∧
  isFinished st' = isFinished st ∧ isLoading st' = isLoading st ∧
  error st' = error st ∧ executeCounter st' = executeCounter st ∧
  chains st' = chains st.
Proof. destruct f; simpl; repeat split; reflexivity. Qed.

Lemma call_opt_effects f args st :
  effects (after (call_opt f args st)) =
  effects st ++ match f with JFun name => [Call name args] | _ => [] end.
Proof. destruct f; simpl; rewrite ?app_nil_r; reflexivity. Qed.

Lemma onRejected_frame e st :
  let st' := after (onRejected inst e st) in
  response st' = response st ∧ data st' = data st ∧
  isFinished st' = isFinished st ∧ isLoading st' = isLoading st ∧
  error st' = e ∧ executeCounter st' = executeCounter st ∧
  chains st' = chains st.
Proof.
  unfold onRejected.
  pose proof (call_opt_frame (onError inst) [e]
                (showToast (JStr "网络错误") (set_error e st))) as H.
  simpl in H. simpl. exact H.
Qed.

Lemma onRejected_effects e st :
  effects (after (onRejected inst e st)) =
  effects st
    ++ toast (JStr "网络错误")
    :: match onError inst with JFun name => [Call name [e]] | _ => [] end.
Proof.
  unfold onRejected. rewrite call_opt_effects. simpl.
  rewrite <- app_assoc. reflexivity.
Qed.

Lemma onFulfilled_frame res st :
  let st' := after (onFulfilled inst res st) in
  isFinished st' = isFinished st ∧ isLoading st' = isLoading st ∧
  error st' = error st ∧ executeCounter st' = executeCounter st ∧
  chains st' = chains st.
Proof.
  unfold onFulfilled.
  destruct (_ && _)%Z.
  - destruct (get_prop (Res.data res) "data") as [d|]; simpl;
      [|repeat split; reflexivity].
    pose proof (call_opt_frame (onSuccess inst) [d]
                  (set_data d (set_response (Some res) st))) as H.
    simpl in H. tauto.
  - destruct (Res.statusCode res =? 401)%Z; simpl;
      [repeat split; reflexivity|].
    destruct (get_prop (Res.data res) "msg") as [m|]; simpl;
      [|repeat split; reflexivity].
    pose proof (call_opt_frame (onError inst) [js_or m (JStr "请求错误")]
                  (showToast (js_or m (JStr "请求错误")) st)) as H.
    simpl in H. tauto.
Qed.

Lemma onFinally_stale k st :
  k ≠ executeCounter st → onFinally inst k st = Normal st.
Proof.
  intros Hk. unfold onFinally.
  destruct (Nat.eqb_spec k (executeCounter st)); [contradiction|reflexivity].
Qed.

Lemma onFinally_live st :
  let st' := after (onFinally inst (executeCounter st) st) in
  isLoading st' = false ∧ isFinished st' = true ∧
  response st' = response st ∧ data st' = data st ∧
  error st' = error st ∧ executeCounter st' = executeCounter st ∧
  chains st' = chains st ∧
  effects st' =
    effects st ++ match onFinish inst with JFun name => [Call name []] | _ => [] end.
Proof.
  unfold onFinally. rewrite Nat.eqb_refl.
  pose proof (call_opt_frame (onFinish inst) [] (loading false st)) as H.
  pose proof (call_opt_effects (onFinish inst) [] (loading false st)) as He.
  simpl in *. rewrite He. destruct H as (-> & -> & -> & -> & -> & -> & ->).
  repeat split; reflexivity.
Qed.

(** A [then] or [catch] turn writes neither flag nor the counter, and it
    needs a chain to run. *)
Lemma handler_turn a st st' :
  step inst a st = Some st' →
  match a with Fulfil _ _ | Reject _ _ | Catch _ => True | _ => False end →
  isLoading st' = isLoading st ∧ isFinished st' = isFinished st ∧
  executeCounter st' = executeCounter st ∧ chains st ≠ ∅.
Proof.
  assert (Hne : ∀ k p, chains st !! k = Some p → chains st ≠ ∅).
  { intros k p Hk He. rewrite He, lookup_empty in Hk. discriminate. }
  destruct a as [u c|k res|k e|k|k]; simpl; try contradiction; intros Hs _.
  - destruct (chains st !! k) as [[]|] eqn:Hk; try discriminate.
    pose proof (onFulfilled_frame res st) as H.
    destruct (onFulfilled inst res st) as [s|e s];
      injection Hs as <-; simpl in *;
      repeat split; try tauto; eapply Hne, Hk.
  - destruct (chains st !! k) as [[]|] eqn:Hk; try discriminate.
    injection Hs as <-.
    pose proof (onRejected_frame e st) as H. simpl in *.
    repeat split; try tauto. eapply Hne, Hk.
  - destruct (chains st !! k) as [[|e|]|] eqn:Hk; try discriminate.
    injection Hs as <-.
    pose proof (onRejected_frame e st) as H. simpl in *.
    repeat split; try tauto. eapply Hne, Hk.
Qed.

(** A [finally] turn. *)
Lemma finally_turn k st st' :
  step inst (Finally k) st = Some st' →
  chains st ≠ ∅ ∧ executeCounter st' = executeCounter st ∧
  ((k = executeCounter st ∧ isLoading st' = false ∧ isFinished st' = true) ∨
   (k ≠ executeCounter st ∧ isLoading st' = isLoading st ∧
    isFinished st' = isFinished st ∧ effects st' = effects st)).
Proof.
  simpl. destruct (chains st !! k) as [[]|] eqn:Hk; try discriminate.
  intros [= <-]. simpl.
  split. { intros He. rewrite He, lookup_empty in Hk. discriminate. }
  destruct (Nat.eq_dec k (executeCounter st)) as [->|Hs].
  - pose proof (onFinally_live st) as H. simpl in H.
    split; [tauto|]. left. tauto.
  - rewrite (onFinally_stale k st Hs). simpl.
    split; [reflexivity|]. right. tauto.
Qed.
End Frames.

(** ** The three ways [execute] can go *)

Section ExecuteCases.
Variable inst : Instance.

Lemma execute_to_transport executeUrl config st _url :
  resolve_url inst executeUrl config = Some _url →
  _url ≠ JUndefined →
  ∃ st', execute inst executeUrl config st = Normal st' ∧
    isLoading st' = true ∧ isFinished st' = false ∧
    error st' = JUndefined ∧ response st' = response st ∧
    data st' =
      (if truthy (resetOnExecute inst) then initialData inst else data st) ∧
    executeCounter st' = executeCounter st + 1 ∧
    chains st' = <[executeCounter st + 1 := AwaitsTransport]> (chains st) ∧
    effects st' = effects st ++ [Request (descriptor inst _url)].
Proof.
  intros Hr Hu. unfold execute. rewrite Hr.
  destruct _url; try contradiction; eexists; (split; [reflexivity|]);
    unfold resetData; destruct (truthy (resetOnExecute inst)); simpl;
    repeat split; reflexivity.
Qed.

Lemma execute_no_address executeUrl config st :
  resolve_url inst executeUrl config = Some JUndefined →
  execute inst executeUrl config st =
  Normal (set_isFinished true
            (set_error (JStr "ERR_INVALID_URL") (set_error JUndefined st))).
Proof. intros Hr. unfold execute. rewrite Hr. reflexivity. Qed.

Lemma execute_throws executeUrl config st :
  resolve_url inst executeUrl config = None →
  execute inst executeUrl config st =
  Throw TypeError (set_error JUndefined st).
Proof. intros Hr. unfold execute. rewrite Hr. reflexivity. Qed.

Lemma reaches_transport_true executeUrl config :
  reaches_transport inst executeUrl config = true →
  ∃ _url, resolve_url inst executeUrl config = Some _url ∧ _url ≠ JUndefined.
Proof.
  unfold reaches_transport.
  destruct (resolve_url inst executeUrl config) as [[]|];
    try discriminate; intros _; eexists; split; try reflexivity;
    discriminate.
Qed.

Lemma reaches_transport_false executeUrl config :
  reaches_transport inst executeUrl config = false →
  resolve_url inst executeUrl config = Some JUndefined ∨
  resolve_url inst executeUrl config = None.
Proof.
  unfold reaches_transport.
  destruct (resolve_url inst executeUrl config) as [[]|];
    try discriminate; auto.
Qed.

(** With a bound address every call resolves one. *)
Lemma bound_address_resolves u executeUrl config :
  url inst = Some u → reaches_transport inst executeUrl config = true.
Proof.
  intros Hu. unfold reaches_transport, resolve_url, url_value.
  rewrite Hu. destruct executeUrl; reflexivity.
Qed.

Lemma execute_counter executeUrl config st :
  executeCounter (after (execute inst executeUrl config st)) =
  executeCounter st
    + (if reaches_transport inst executeUrl config then 1 else 0).
Proof.
  destruct (reaches_transport inst executeUrl config) eqn:Hr.
  - apply reaches_transport_true in Hr as (u & Hr & Hu).
    destruct (execute_to_transport executeUrl config st u Hr Hu)
      as (st' & -> & H).
    simpl. tauto.
  - apply reaches_transport_false in Hr as [Hr|Hr].
    + rewrite execute_no_address by exact Hr. simpl. lia.
    + rewrite execute_throws by exact Hr. simpl. lia.
Qed.

Lemma step_counter a st st' :
  step inst a st = Some st' → executeCounter st ≤ executeCounter st'.
Proof.
  intros Hs. destruct a as [u c|k res|k e|k|k].
  - injection Hs as <-. rewrite execute_counter. lia.
  - apply handler_turn in Hs; [lia|exact I].
  - apply handler_turn in Hs; [lia|exact I].
  - apply handler_turn in Hs; [lia|exact I].
  - apply finally_turn in Hs. lia.
Qed.

Lemma run_counter l : ∀ st st',
  run inst l st = Some st' → executeCounter st ≤ executeCounter st'.
Proof.
  induction l as [|a l IH]; simpl; intros st st'.
  - intros [= <-]. reflexivity.
  - destruct (step inst a st) as [st1|] eqn:Hs; [|discriminate].
    intros Hr. apply step_counter in Hs. apply IH in Hr. lia.
Qed.
End ExecuteCases.

(** ** The instances of the examples *)

Example easy_is_useRequest : useRequest [] = Some (easy, fresh JUndefined).
Proof. reflexivity. Qed.

Example observed_is_useRequest :
  useRequest [JObj {[ "timeout" := JNum 5000 ]};
              JObj {[ "onSuccess" := JFun "onSuccess";
                      "onError" := JFun "onError";
                      "onFinish" := JFun "onFinish" ]}]
  = Some (observed, fresh JUndefined).
Proof. vm_compute. reflexivity. Qed.

(** ** The generation counter (C9) *)

(** C9, as stated, fails: on an instance without a bound address,
    [execute()] resolves no address and returns before the increment, so
    the counter after the call is not the counter before it plus one. *)
Lemma counter_unchanged_without_address :
  reaches_transport easy JUndefined JUndefined = false ∧
  executeCounter (after (execute easy JUndefined JUndefined (fresh JUndefined)))
  ≠ executeCounter (fresh JUndefined) + 1.
Proof. split; [reflexivity|]. vm_compute. discriminate. Qed.

(** C9, amended: the generation counter is incremented exactly once by
    every [execute] call that resolves an address and is left unchanged by
    a call that resolves none (or that throws while resolving); no handler
    writes it, so it never decreases along any sequence of turns. *)
Theorem executeCounter_monotone (inst : Instance) :
  (∀ executeUrl config st,
     executeCounter (after (execute inst executeUrl config st)) =
     executeCounter st
       + (if reaches_transport inst executeUrl config then 1 else 0)) ∧
  (∀ res st,
     executeCounter (after (onFulfilled inst res st)) = executeCounter st) ∧
  (∀ e st,
     executeCounter (after (onRejected inst e st)) = executeCounter st) ∧
  (∀ k st,
     executeCounter (after (onFinally inst k st)) = executeCounter st) ∧
  (∀ l st st',
     run inst l st = Some st' → executeCounter st ≤ executeCounter st').
Proof.
  split; [apply execute_counter|].
  split; [intros; apply onFulfilled_frame|].
  split; [intros; apply onRejected_frame|].
  split; [|apply run_counter].
  intros k st. unfold onFinally.
  destruct (Nat.eqb k (executeCounter st)); [|reflexivity].
  apply (call_opt_frame (onFinish inst) [] (loading false st)).
Qed.

Lemma executeCounter_monotone_witness :
  let l := [Execute (JStr "/a") JUndefined; Execute JUndefined JUndefined;
            Execute (JStr "/b") JUndefined;
            Fulfil 1 (reply 200 "0" "ok" JNull); Finally 1] in
  ∃ st, run easy l (fresh JUndefined) = Some st ∧
        executeCounter (fresh JUndefined) ≤ executeCounter st ∧
        executeCounter st = 2.
Proof.
  eexists. split; [vm_compute; reflexivity|].
  split; [|reflexivity].
  destruct (executeCounter_monotone easy) as (_ & _ & _ & _ & Hrun).
  apply (Hrun [Execute (JStr "/a") JUndefined; Execute JUndefined JUndefined;
               Execute (JStr "/b") JUndefined;
               Fulfil 1 (reply 200 "0" "ok" JNull); Finally 1]).
  vm_compute. reflexivity.
Defined.

(** ** No resolvable address (C2) *)

Lemma no_address_resolve_url inst executeUrl config :
  (∀ s, executeUrl ≠ JStr s) →
  url inst = None →
  get_prop (with_default config (JObj ∅)) "url" = Some JUndefined →
  resolve_url inst executeUrl config = Some JUndefined.
Proof.
  intros Hs Hu Hc. unfold resolve_url, url_value. rewrite Hu.
  destruct executeUrl; simpl; try exact Hc.
  exfalso. eapply Hs. reflexivity.
Qed.

(** C2, as stated, fails twice over.  When [execute()] resolves no address
    while an earlier request is still loading, [isLoading] is true after
    the call, not false.  And the thenable need not reject: in
    [execute().then(...); execute("/a")] the wait is over at once, but the
    callback runs after the second call has cleared [error], so the
    promise resolves. *)
Lemma no_address_postconditions_fail :
  resolve_url easy JUndefined JUndefined = Some JUndefined ∧
  isLoading (after (execute easy JUndefined JUndefined easy_loading)) ≠ false ∧
  (let s1 := after (execute easy JUndefined JUndefined (fresh JUndefined)) in
   let s2 := after (execute easy (JStr "/a") JUndefined s1) in
   waitUntilFinished [s1; s2] 1 = Resolved).
Proof.
  split; [reflexivity|]. split; [vm_compute; discriminate|].
  vm_compute. reflexivity.
Qed.

(** A wait that starts in a state where [isFinished] is true is over at
    once; the promise settles by the state its callback runs in. *)
Lemma wait_over_at_once st later delay st_r :
  isFinished st = true →
  (st :: later) !! delay = Some st_r →
  waitUntilFinished (st :: later) delay = settle st_r.
Proof.
  intros Hf Hr. unfold waitUntilFinished. cbn [until_toBe].
  rewrite Hf. cbn [Bool.eqb]. rewrite Nat.add_0_l, Hr. reflexivity.
Qed.

(** A wait that goes through states where [isFinished] is false and then
    meets one where it is true, with the callback run there. *)
Lemma wait_over_at_last before st :
  Forall (fun s => isFinished s = false) before →
  isFinished st = true →
  waitUntilFinished (before ++ [st]) 0 = settle st.
Proof.
  intros Hb Hf. unfold waitUntilFinished.
  assert (Hw : until_toBe isFinished true (before ++ [st])
               = Some (length before)).
  { induction Hb as [|s before Hs Hb IH]; simpl.
    - rewrite Hf. reflexivity.
    - rewrite Hs, IH. reflexivity. }
  rewrite Hw, Nat.add_0_r.
  rewrite lookup_app_r by reflexivity.
  rewrite Nat.sub_diag. reflexivity.
Qed.

(** While [isFinished] stays false the promise is pending. *)
Lemma wait_goes_on sts delay :
  Forall (fun s => isFinished s = false) sts →
  waitUntilFinished sts delay = Pending.
Proof.
  intros Hb. unfold waitUntilFinished.
  assert (Hw : until_toBe isFinished true sts = None).
  { induction Hb as [|s sts Hs Hb IH]; simpl; [reflexivity|].
    rewrite Hs, IH. reflexivity. }
  rewrite Hw. reflexivity.
Qed.

(** C2, amended: an [execute] call in which no address resolves (no string
    argument, no bound address, no address in the config argument) returns
    normally with [error = "ERR_INVALID_URL"] and [isFinished = true]; it
    does not write [isLoading] (which therefore stays false unless an
    earlier request is still loading), does not call the transport, starts
    no chain and leaves the counter, [data] and [response] alone.  A
    [then] or [catch] called on the thenable right after the call stops
    waiting at once, and its promise settles by what [error] holds when
    its callback runs: it rejects with that error if the callback runs in
    the state the call left, and in general only as long as [error] has
    not been written again. *)
Theorem execute_without_address inst executeUrl config st :
  (∀ s, executeUrl ≠ JStr s) →
  url inst = None →
  get_prop (with_default config (JObj ∅)) "url" = Some JUndefined →
  let st' := after (execute inst executeUrl config st) in
  returns (execute inst executeUrl config st) = true ∧
  error st' = JStr "ERR_INVALID_URL" ∧
  isFinished st' = true ∧
  isLoading st' = isLoading st ∧
  effects st' = effects st ∧
  chains st' = chains st ∧
  executeCounter st' = executeCounter st ∧
  data st' = data st ∧
  response st' = response st ∧
  waitUntilFinished [st'] 0 = Rejected (JStr "ERR_INVALID_URL") ∧
  (∀ later delay st_r,
     (st' :: later) !! delay = Some st_r →
     waitUntilFinished (st' :: later) delay = settle st_r) ∧
  (∀ later delay st_r,
     (st' :: later) !! delay = Some st_r →
     error st_r = error st' →
     waitUntilFinished (st' :: later) delay
       = Rejected (JStr "ERR_INVALID_URL")).
Proof.
  intros Hs Hu Hc.
  rewrite (execute_no_address inst executeUrl config st
             (no_address_resolve_url inst executeUrl config Hs Hu Hc)).
  cbn [after returns].
  set (st' := set_isFinished true
                (set_error (JStr "ERR_INVALID_URL") (set_error JUndefined st))).
  do 9 (split; [reflexivity|]).
  split; [reflexivity|]. split.
  - intros later delay st_r Hr. apply wait_over_at_once; [reflexivity|exact Hr].
  - intros later delay st_r Hr He.
    rewrite (wait_over_at_once st' later delay st_r eq_refl Hr).
    unfold settle. rewrite He. reflexivity.
Qed.

Lemma execute_without_address_witness :
  let st' := after (execute easy JUndefined JUndefined (fresh JUndefined)) in
  (∀ s, JUndefined ≠ JStr s) ∧ url easy = None ∧
  error st' = JStr "ERR_INVALID_URL" ∧ isFinished st' = true ∧
  isLoading st' = false ∧ effects st' = [] ∧
  waitUntilFinished [st'] 0 = Rejected (JStr "ERR_INVALID_URL").
Proof.
  pose proof (execute_without_address easy JUndefined JUndefined
                (fresh JUndefined)) as H.
  simpl in H.
  destruct H as (_ & He & Hf & Hl & Hx & _ & _ & _ & _ & Hw & _);
    [intros s; discriminate|reflexivity|reflexivity|].
  split; [intros s; discriminate|]. split; [reflexivity|].
  repeat split; assumption.
Defined.

(** ** The request descriptor (C3) *)





(** ** Responses (C4, C5, C6) *)

(** C4: for a response whose status is in 200..299 and whose body is an
    envelope with [data: D], once the success handler has run the
    [response] cell holds the raw response and the [data] cell holds [D];
    a supplied [onSuccess] is called with [D], and nothing else is
    called. *)
Theorem success_stores_envelope_data inst res st o D :
  (200 ≤ Res.statusCode res < 300)%Z →
  Res.data res = JObj o →
  o !! "data" = Some D →
  let st' := after (onFulfilled inst res st) in
  response st' = Some res ∧
  data st' = D ∧
  effects st' =
    effects st
      ++ match onSuccess inst with JFun f => [Call f [D]] | _ => [] end ∧
  (∀ f, onSuccess inst = JFun f → onFulfilled inst res st = Normal st').
Proof.
  intros [Hlo Hhi] Ho HD. unfold onFulfilled.
  apply Z.leb_le in Hlo. apply Z.ltb_lt in Hhi. rewrite Hlo, Hhi. simpl.
  rewrite Ho. simpl. rewrite HD. simpl.
  pose proof (call_opt_frame (onSuccess inst) [D]
                (set_data D (set_response (Some res) st))) as Hfr.
  simpl in Hfr. destruct Hfr as (Hr & Hd & _).
  split; [exact Hr|]. split; [exact Hd|].
  split; [rewrite call_opt_effects; reflexivity|].
  intros f Hf. rewrite Hf. reflexivity.
Qed.

Lemma success_stores_envelope_data_witness :
  let res := reply 200 "0" "ok" (JNum 7) in
  let st' := after (onFulfilled observed res observed_loading) in
  (200 ≤ Res.statusCode res < 300)%Z ∧
  response st' = Some res ∧ data st' = JNum 7 ∧
  effects st' = effects observed_loading ++ [Call "onSuccess" [JNum 7]].
Proof.
  split; [simpl; lia|].
  destruct (success_stores_envelope_data observed
              (reply 200 "0" "ok" (JNum 7)) observed_loading
              {[ "code" := JStr "0"; "msg" := JStr "ok"; "data" := JNum 7 ]}
              (JNum 7)) as (Hr & Hd & He & _);
    [simpl; lia|reflexivity|vm_compute; reflexivity|].
  split; [exact Hr|]. split; [exact Hd|]. exact He.
Defined.

(** C5: for a response whose status is neither in 200..299 nor 401 and
    whose envelope message is the string [M], a toast is shown whose title
    is [M], or the fixed fallback when [M] is empty, and a supplied
    [onError] is called with that same value; no cell is written. *)
Theorem failure_status_notifies inst res st o M :
  ¬ (200 ≤ Res.statusCode res < 300)%Z →
  Res.statusCode res ≠ 401%Z →
  Res.data res = JObj o →
  o !! "msg" = Some (JStr M) →
  let shown := JStr (if String.eqb M EmptyString then "请求错误" else M) in
  let st' := after (onFulfilled inst res st) in
  effects st' =
    effects st
      ++ toast shown
      :: match onError inst with JFun f => [Call f [shown]] | _ => [] end ∧
  (∀ f, onError inst = JFun f → onFulfilled inst res st = Normal st') ∧
  data st' = data st ∧ response st' = response st ∧ error st' = error st.
Proof.
  intros Hrange H401 Ho HM. unfold onFulfilled.
  replace ((200 <=? Res.statusCode res)%Z && (Res.statusCode res <? 300)%Z)
    with false
    by (symmetry; apply andb_false_iff;
        rewrite Z.leb_gt, Z.ltb_ge; lia).
  apply Z.eqb_neq in H401. rewrite H401.
  rewrite Ho. simpl. rewrite HM. simpl.
  replace (js_or (JStr M) (JStr "请求错误"))
    with (JStr (if String.eqb M EmptyString then "请求错误" else M))
    by (unfold js_or; simpl; destruct (String.eqb M EmptyString); reflexivity).
  set (shown := JStr (if String.eqb M EmptyString then "请求错误" else M)).
  pose proof (call_opt_frame (onError inst) [shown] (showToast shown st))
    as Hfr.
  simpl in Hfr. destruct Hfr as (Hr & Hd & _ & _ & He & _).
  split; [|split; [|split; [exact Hd|split; [exact Hr|exact He]]]].
  - rewrite call_opt_effects. simpl. rewrite <- app_assoc. reflexivity.
  - intros f Hf. rewrite Hf. reflexivity.
Qed.

Lemma failure_status_notifies_witness :
  let st1 := after (onFulfilled observed (reply 500 "E" "boom" JNull) observed_loading) in
  let st2 := after (onFulfilled observed (reply 404 "E" EmptyString JNull) observed_loading) in
  effects st1 =
    effects observed_loading ++ [toast (JStr "boom"); Call "onError" [JStr "boom"]] ∧
  effects st2 =
    effects observed_loading
      ++ [toast (JStr "请求错误"); Call "onError" [JStr "请求错误"]].
Proof.
  split.
  - destruct (failure_status_notifies observed (reply 500 "E" "boom" JNull)
                observed_loading
                {[ "code" := JStr "E"; "msg" := JStr "boom"; "data" := JNull ]}
                "boom") as (He & _);
      [simpl; lia|discriminate|reflexivity|vm_compute; reflexivity|].
    exact He.
  - destruct (failure_status_notifies observed
                (reply 404 "E" EmptyString JNull) observed_loading
                {[ "code" := JStr "E"; "msg" := JStr EmptyString;
                   "data" := JNull ]}
                EmptyString) as (He & _);
      [simpl; lia|discriminate|reflexivity|vm_compute; reflexivity|].
    exact He.
Defined.

(** C6, as stated, fails: the cells are not as they were immediately before
    the [execute] call.  On [easy], [execute()] leaves
    [error = "ERR_INVALID_URL"]; the next call, [execute("/a")], clears it
    before the transport is reached, so after the 401 response [error] is
    [undefined]. *)
Lemma unauthorized_after_error :
  let before := after (execute easy JUndefined JUndefined (fresh JUndefined)) in
  ∃ st,
    run easy [Execute (JStr "/a") JUndefined;
              Fulfil 1 (reply 401 "401" "unauthorized" JNull);
              Finally 1] before = Some st ∧
    error before = JStr "ERR_INVALID_URL" ∧
    error st ≠ error before.
Proof.
  eexists. split; [vm_compute; reflexivity|].
  split; [reflexivity|]. vm_compute. discriminate.
Qed.

(** C6, amended: for a response with status 401 the handler does nothing:
    no toast, no [onError], no [onSuccess], and every cell is as it was
    immediately before the handler ran.  Relative to the values before the
    [execute] call, [error] has been cleared and, under [resetOnExecute],
    [data] reset to [initialData] by [execute] itself.  Only the
    loading-flag transition (with [onFinish]) follows, and only when the
    chain's generation is still the live one. *)
Theorem unauthorized_is_noop inst res :
  Res.statusCode res = 401%Z →
  (∀ st, onFulfilled inst res st = Normal st) ∧
  (∀ executeUrl config st0,
     reaches_transport inst executeUrl config = true →
     let st := after (execute inst executeUrl config st0) in
     error st = JUndefined ∧
     data st =
       (if truthy (resetOnExecute inst) then initialData inst else data st0)) ∧
  (∀ k st,
     let st' := after (onFinally inst k st) in
     data st' = data st ∧ error st' = error st ∧ response st' = response st ∧
     (k = executeCounter st → isLoading st' = false ∧ isFinished st' = true) ∧
     (k ≠ executeCounter st → st' = st)).
Proof.
  intros H401.
  split; [|split].
  - intros st. unfold onFulfilled. rewrite H401. reflexivity.
  - intros executeUrl config st0 Hr.
    apply reaches_transport_true in Hr as (u & Hr & Hu).
    destruct (execute_to_transport inst executeUrl config st0 u Hr Hu)
      as (st' & -> & H).
    simpl. tauto.
  - intros k st.
    destruct (Nat.eq_dec k (executeCounter st)) as [->|Hk].
    + pose proof (onFinally_live inst st) as H. simpl in *.
      destruct H as (Hl & Hf & Hr & Hd & He & _).
      split; [exact Hd|]. split; [exact He|]. split; [exact Hr|].
      split; [intros _; split; assumption|intros Hne; contradiction].
    + rewrite (onFinally_stale inst k st Hk). simpl.
      split; [reflexivity|]. split; [reflexivity|]. split; [reflexivity|].
      split; [intros Heq; contradiction|reflexivity].
Qed.

Lemma unauthorized_is_noop_witness :
  let res := reply 401 "401" "unauthorized" JNull in
  Res.statusCode res = 401%Z ∧
  onFulfilled observed res observed_loading = Normal observed_loading.
Proof.
  split; [reflexivity|].
  apply (unauthorized_is_noop observed (reply 401 "401" "unauthorized" JNull)).
  reflexivity.
Defined.

(** ** Transport failure (C7) *)

(** C7, as stated, fails for a superseded invocation.  [execute("/a")] then
    [execute("/b")] on [easy], with [then] called on the thenable right
    after the first call; the first transport call rejects with [timeout].
    When that invocation has finished, [error] holds [timeout] but
    [isFinished] is still false and the promise is pending, whenever its
    callback is due; the second call then rejects with [refused], and the
    promise rejects with [refused], never with [timeout]. *)
Lemma stale_rejection_leaves_thenable_pending :
  let timeout := failure "request:fail timeout" in
  let refused := failure "request:fail refused" in
  let first := [Execute (JStr "/a") JUndefined; Execute (JStr "/b") JUndefined;
                Reject 1 timeout; Finally 1] in
  let second := [Reject 2 refused; Finally 2] in
  (∃ st, run easy first (fresh JUndefined) = Some st ∧
         error st = timeout ∧ isFinished st = false) ∧
  (∀ delay,
     waitUntilFinished (trace easy first (fresh JUndefined)) delay = Pending) ∧
  waitUntilFinished (trace easy (first ++ second) (fresh JUndefined)) 0
    = Rejected refused ∧
  Rejected refused ≠ Rejected timeout.
Proof.
  split; [eexists; vm_compute; repeat split; reflexivity|].
  split; [intros delay; apply wait_goes_on; vm_compute;
          repeat constructor|].
  split; [vm_compute; reflexivity|].
  vm_compute. intros H. discriminate H.
Qed.

(** C7, amended: when the transport rejects with the failure object [e], the
    [error] cell is set to [e], the toast with the fixed network-error
    title is shown and a supplied [onError] is called with [e] itself.
    From then on, and until [error] is written again, a thenable callback
    that runs rejects with [e], whether the invocation is superseded or
    not: so does a promise whose wait was over before (its [then] was
    called while [isFinished] was true) and whose callback runs right
    after this handler.  If the invocation is still the most recently started one when
    its [finally] handler runs next, [isFinished] becomes true; a promise
    whose [then] was called while [isFinished] was false, and stayed
    false until this turn, then stops waiting and rejects with [e],
    provided its callback runs before any further turn.  The [finally]
    handler of a superseded invocation writes no cell and calls nothing,
    so a promise still waiting goes on waiting. *)
Theorem rejection_recorded inst (o : gmap string jsval) st :
  let e := JObj o in
  let st1 := after (onRejected inst e st) in
  error st1 = e ∧
  effects st1 =
    effects st
      ++ toast (JStr "网络错误")
      :: match onError inst with JFun f => [Call f [e]] | _ => [] end ∧
  (∀ f, onError inst = JFun f → onRejected inst e st = Normal st1) ∧
  settle st1 = Rejected e ∧
  (∀ s0 between,
     isFinished s0 = true →
     waitUntilFinished (s0 :: between ++ [st1]) (S (length between))
       = Rejected e) ∧
  (∀ k, k = executeCounter st1 →
        let st2 := after (onFinally inst k st1) in
        isFinished st2 = true ∧ settle st2 = Rejected e ∧
        waitUntilFinished [st2] 0 = Rejected e ∧
        (∀ before,
           Forall (fun s => isFinished s = false) before →
           waitUntilFinished (before ++ [st2]) 0 = Rejected e)) ∧
  (∀ k, k ≠ executeCounter st1 →
        after (onFinally inst k st1) = st1 ∧
        (∀ before delay,
           Forall (fun s => isFinished s = false) before →
           isFinished st1 = false →
           waitUntilFinished
             (before ++ [st1; after (onFinally inst k st1)]) delay
             = Pending)).
Proof.
  intros e st1.
  pose proof (onRejected_frame inst e st) as Hfr.
  simpl in Hfr. fold st1 in Hfr. destruct Hfr as (_ & _ & _ & _ & He & _).
  assert (Hs1 : settle st1 = Rejected e).
  { unfold settle. rewrite He. reflexivity. }
  split; [exact He|]. split; [apply onRejected_effects|].
  split; [|split; [exact Hs1|split; [|split]]].
  - intros f Hf. subst st1. unfold onRejected. rewrite Hf. reflexivity.
  - intros s0 between H0. rewrite <- Hs1.
    apply wait_over_at_once; [exact H0|].
    cbn [lookup list_lookup]. apply list_lookup_middle. reflexivity.
  - intros k ->.
    pose proof (onFinally_live inst st1) as H. simpl in H.
    destruct H as (_ & Hfin & _ & _ & Herr & _).
    cbn zeta.
    assert (Hs2 : settle (after (onFinally inst (executeCounter st1) st1))
                  = Rejected e).
    { unfold settle. rewrite Herr, He. reflexivity. }
    split; [exact Hfin|]. split; [exact Hs2|]. split.
    + rewrite <- Hs2. apply (wait_over_at_last []); [constructor|exact Hfin].
    + intros before Hb. rewrite <- Hs2.
      apply wait_over_at_last; [exact Hb|exact Hfin].
  - intros k Hk. rewrite (onFinally_stale inst k st1 Hk). cbn [after].
    split; [reflexivity|].
    intros before delay Hb Hf. apply wait_goes_on.
    apply Forall_app. split; [exact Hb|].
    repeat constructor; exact Hf.
Qed.

Lemma rejection_recorded_witness :
  let e := failure "request:fail timeout" in
  let st1 := after (onRejected observed e observed_loading) in
  error st1 = e ∧
  effects st1 =
    effects observed_loading ++ [toast (JStr "网络错误"); Call "onError" [e]] ∧
  waitUntilFinished [after (onFinally observed 1 st1)] 0 = Rejected e.
Proof.
  destruct (rejection_recorded observed
              {[ "errMsg" := JStr "request:fail timeout" ]} observed_loading)
    as (He & Heff & _ & _ & _ & Hlive & _).
  split; [exact He|]. split; [exact Heff|].
  apply (Hlive 1). vm_compute. reflexivity.
Defined.

(** ** Overlapping invocations (C1) *)

Lemma stale_chain_turn inst k a st st' :
  k ≠ executeCounter st →
  of_chain k a = true →
  step inst a st = Some st' →
  isLoading st' = isLoading st ∧ isFinished st' = isFinished st ∧
  (a = Finally k → effects st' = effects st).
Proof.
  intros Hk Ha Hs.
  destruct a as [u c|k' res|k' e|k'|k']; simpl in Ha; try discriminate;
    apply Nat.eqb_eq in Ha; subst k'.
  - apply handler_turn in Hs; [|exact I].
    split; [tauto|]. split; [tauto|]. discriminate.
  - apply handler_turn in Hs; [|exact I].
    split; [tauto|]. split; [tauto|]. discriminate.
  - apply handler_turn in Hs; [|exact I].
    split; [tauto|]. split; [tauto|]. discriminate.
  - apply finally_turn in Hs as (_ & _ & [(Heq & _)|(_ & Hl & Hf & He)]);
      [contradiction|].
    split; [exact Hl|]. split; [exact Hf|]. intros _. exact He.
Qed.

(** C1, as stated, fails when the later invocation resolves no address.
    On [observed], A is [execute("/a")] and B is [execute()]: B returns
    before the counter is incremented, so A's generation stays the live
    one.  When A's transport call completes after B has started, A's
    [finally] handler sets [isLoading] from true to false and calls
    [onFinish]. *)
Lemma no_address_call_does_not_supersede :
  let A := Execute (JStr "/a") JUndefined in
  let B := Execute JUndefined JUndefined in
  let res := reply 200 "0" "ok" (JStr "a") in
  reaches_transport observed JUndefined JUndefined = false ∧
  ∃ st st',
    run observed [A; B] (fresh JUndefined) = Some st ∧
    run observed [Fulfil 1 res; Finally 1] st = Some st' ∧
    executeCounter st = 1 ∧
    isLoading st = true ∧ isLoading st' = false ∧
    effects st = [Request (descriptor observed (JStr "/a"))] ∧
    effects st' =
      [Request (descriptor observed (JStr "/a"));
       Call "onSuccess" [JStr "a"]; Call "onFinish" []].
Proof.
  split; [reflexivity|].
  eexists. eexists.
  split; [vm_compute; reflexivity|].
  split; [vm_compute; reflexivity|].
  repeat split; vm_compute; reflexivity.
Qed.

(** C1, amended: invocation A resolves an address and starts, then (after
    any turns [l1]) invocation B resolves an address and starts (a call
    of [execute] in which no address resolves starts no generation and
    supersedes nothing), and [st] is any state reached after that (by any
    turns [l2]).
    Every turn of A's chain taken in [st] leaves [isLoading] and
    [isFinished] as they are, and A's [finally] handler does nothing at
    all, so [onFinish] is not called.  A's [then]/[catch] handlers still
    run in full: a rejection is written to [error], shown and passed to
    [onError]; a successful envelope is written to [response] and [data]
    and passed to [onSuccess].  In any state the [finally] handler sets
    [isLoading = false] and [isFinished = true] and calls [onFinish]
    exactly when the generation it captured is the live counter. *)
Theorem stale_invocation_suppressed inst a1 c1 st0 l1 st1 b1 c2 l2 st :
  let stA := after (execute inst a1 c1 st0) in
  let kA := executeCounter stA in
  reaches_transport inst a1 c1 = true →
  run inst l1 stA = Some st1 →
  reaches_transport inst b1 c2 = true →
  run inst l2 (after (execute inst b1 c2 st1)) = Some st →
  chains stA !! kA = Some AwaitsTransport ∧
  kA < executeCounter st ∧
  (∀ a st', of_chain kA a = true → step inst a st = Some st' →
            isLoading st' = isLoading st ∧ isFinished st' = isFinished st ∧
            (a = Finally kA → effects st' = effects st)) ∧
  onFinally inst kA st = Normal st ∧
  (∀ e, let st' := after (onRejected inst e st) in
        error st' = e ∧
        effects st' =
          effects st ++ toast (JStr "网络错误")
            :: match onError inst with JFun f => [Call f [e]] | _ => [] end) ∧
  (∀ res o D, (200 ≤ Res.statusCode res < 300)%Z →
        Res.data res = JObj o → o !! "data" = Some D →
        let st' := after (onFulfilled inst res st) in
        response st' = Some res ∧ data st' = D ∧
        effects st' =
          effects st
            ++ match onSuccess inst with JFun f => [Call f [D]] | _ => [] end) ∧
  (∀ k s, let s' := after (onFinally inst k s) in
          if Nat.eqb k (executeCounter s)
          then isLoading s' = false ∧ isFinished s' = true ∧
               effects s' =
                 effects s
                   ++ match onFinish inst with JFun f => [Call f []] | _ => [] end
          else s' = s).
Proof.
  intros stA kA HA Hl1 HB Hl2.
  apply reaches_transport_true in HA as (uA & HA & HuA).
  destruct (execute_to_transport inst a1 c1 st0 uA HA HuA)
    as (sA & HeA & _ & _ & _ & _ & _ & HcA & HchA & _).
  assert (HsA : stA = sA) by (subst stA; rewrite HeA; reflexivity).
  pose proof (execute_counter inst b1 c2 st1) as HcB. rewrite HB in HcB.
  apply run_counter in Hl1. apply run_counter in Hl2.
  assert (Hlt : kA < executeCounter st) by lia.
  assert (Hne : kA ≠ executeCounter st) by lia.
  split.
  { subst kA. rewrite HsA, HchA, HcA. apply lookup_insert_eq. }
  split; [exact Hlt|].
  split; [intros a st'; apply stale_chain_turn; exact Hne|].
  split; [apply onFinally_stale; exact Hne|].
  split; [|split].
  - intros e. simpl. split.
    + apply (onRejected_frame inst e st).
    + apply onRejected_effects.
  - intros res o D Hrange Ho HD. simpl.
    unfold onFulfilled.
    destruct Hrange as [Hlo Hhi].
    apply Z.leb_le in Hlo. apply Z.ltb_lt in Hhi. rewrite Hlo, Hhi. simpl.
    rewrite Ho. simpl. rewrite HD. simpl.
    pose proof (call_opt_frame (onSuccess inst) [D]
                  (set_data D (set_response (Some res) st))) as Hfr.
    simpl in Hfr. destruct Hfr as (Hr & Hd & _).
    split; [exact Hr|]. split; [exact Hd|].
    rewrite call_opt_effects. reflexivity.
  - intros k s. simpl.
    destruct (Nat.eqb_spec k (executeCounter s)) as [->|Hk].
    + pose proof (onFinally_live inst s) as H. simpl in H. tauto.
    + rewrite (onFinally_stale inst k s Hk). reflexivity.
Qed.

Lemma stale_invocation_suppressed_witness :
  let A := Execute (JStr "/a") JUndefined in
  let B := Execute (JStr "/b") JUndefined in
  let B_done := [Fulfil 2 (reply 200 "0" "ok" (JStr "b")); Finally 2] in
  ∃ st, run observed (A :: B :: B_done) (fresh JUndefined) = Some st ∧
        isLoading st = false ∧ isFinished st = true ∧
        onFinally observed 1 st = Normal st ∧
        data (after (onFulfilled observed (reply 200 "0" "ok" (JStr "a")) st))
          = JStr "a".
Proof.
  eexists. split; [vm_compute; reflexivity|].
  split; [reflexivity|]. split; [reflexivity|].
  match goal with
  | |- onFinally _ _ ?s = _ ∧ _ =>
      destruct (stale_invocation_suppressed observed
                  (JStr "/a") JUndefined (fresh JUndefined) []
                  (after (execute observed (JStr "/a") JUndefined
                            (fresh JUndefined)))
                  (JStr "/b") JUndefined
                  [Fulfil 2 (reply 200 "0" "ok" (JStr "b")); Finally 2] s)
        as (_ & _ & _ & Hfin & _ & Hok & _);
        [reflexivity|reflexivity|reflexivity|vm_compute; reflexivity|]
  end.
  split; [exact Hfin|].
  apply (Hok (reply 200 "0" "ok" (JStr "a"))
             {[ "code" := JStr "0"; "msg" := JStr "ok"; "data" := JStr "a" ]}
             (JStr "a"));
    [simpl; lia|reflexivity|vm_compute; reflexivity].
Defined.

(** ** The loading flags (C8) *)

Section Flags.
Variable inst : Instance.

(** What one turn can do to the two flags: nothing, [loading(true)],
    [loading(false)], or the lone [isFinished.value = true] of an
    [execute] without address. *)
Lemma step_flags a st st' :
  step inst a st = Some st' →
  (isLoading st' = isLoading st ∧ isFinished st' = isFinished st ∧
   chains st' = chains st ∧ transitions inst a = false) ∨
  (isLoading st' = isLoading st ∧ isFinished st' = isFinished st ∧
   chains st ≠ ∅) ∨
  (isLoading st' = true ∧ isFinished st' = false) ∨
  (isLoading st' = false ∧ isFinished st' = true) ∨
  (isLoading st' = isLoading st ∧ isFinished st' = true ∧
   ∃ executeUrl config,
     a = Execute executeUrl config ∧
     resolve_url inst executeUrl config = Some JUndefined).
Proof.
  intros Hs. destruct a as [u c|k res|k e|k|k].
  - injection Hs as <-.
    destruct (resolve_url inst u c) as [v|] eqn:Hr.
    + destruct (undefined_or_not v) as [->|Hv].
      * rewrite (execute_no_address inst u c st Hr). simpl.
        do 4 right. repeat split; eauto.
      * destruct (execute_to_transport inst u c st v Hr Hv)
          as (s & -> & Hl & Hf & _).
        simpl. right; right; left. split; assumption.
    + rewrite (execute_throws inst u c st Hr). simpl. rewrite Hr.
      left. repeat split; reflexivity.
  - apply handler_turn in Hs; [|exact I]. right; left. tauto.
  - apply handler_turn in Hs; [|exact I]. right; left. tauto.
  - apply handler_turn in Hs; [|exact I]. right; left. tauto.
  - apply finally_turn in Hs as (Hne & _ & [(_ & Hl & Hf)|(_ & Hl & Hf & _)]).
    + do 3 right; left. tauto.
    + right; left. tauto.
Qed.

Lemma transitions_flags a st st' :
  step inst a st = Some st' →
  transitions inst a = true →
  (isLoading st' = true ∧ isFinished st' = false) ∨
  (isLoading st' = isLoading st ∧ isFinished st' = true).
Proof.
  destruct a as [u c| | | |]; simpl; try discriminate.
  intros [= <-] Ht.
  destruct (resolve_url inst u c) as [v|] eqn:Hr; [|discriminate].
  destruct (undefined_or_not v) as [->|Hv].
  - rewrite (execute_no_address inst u c st Hr). right. split; reflexivity.
  - destruct (execute_to_transport inst u c st v Hr Hv)
      as (s & -> & Hl & Hf & _).
    left. split; assumption.
Qed.

(** At least one flag is true: kept by every turn. *)
Lemma run_some_flag l : ∀ st st',
  run inst l st = Some st' →
  isLoading st || isFinished st = true ∨ existsb (transitions inst) l = true →
  isLoading st' || isFinished st' = true.
Proof.
  induction l as [|a l IH]; simpl; intros st st' Hrun Hpre.
  - injection Hrun as <-. destruct Hpre as [H|H]; [exact H|discriminate].
  - destruct (step inst a st) as [s|] eqn:Hs; [|discriminate].
    apply (IH s st' Hrun).
    destruct (transitions inst a) eqn:Ht.
    + left. destruct (transitions_flags a st s Hs Ht) as [[-> ->]|[_ ->]];
        [reflexivity|apply orb_true_r].
    + destruct Hpre as [H|H]; [left|right; exact H].
      destruct (step_flags a st s Hs)
        as [(-> & -> & _)|[(-> & -> & _)|[(-> & ->)|[(-> & ->)|(_ & -> & _)]]]];
        try exact H; try reflexivity; apply orb_true_r.
Qed.

(** Until [execute] first returns, nothing is written and no chain
    exists. *)
Lemma run_untouched l : ∀ st st',
  run inst l st = Some st' →
  existsb (transitions inst) l = false →
  chains st = ∅ →
  isLoading st' = isLoading st ∧ isFinished st' = isFinished st.
Proof.
  induction l as [|a l IH]; simpl; intros st st' Hrun Hnone Hch.
  - injection Hrun as <-. split; reflexivity.
  - apply orb_false_iff in Hnone as [Ha Hl].
    destruct a as [u c|k res|k e|k|k]; simpl in Hrun, Ha;
      try (rewrite Hch, lookup_empty in Hrun; discriminate).
    destruct (resolve_url inst u c) eqn:Hr; [discriminate|].
    rewrite (execute_throws inst u c st Hr) in Hrun.
    apply (IH _ st' Hrun Hl Hch).
Qed.

(** Exactly one flag is true: established by the first [execute] that
    returns and kept by every calm turn. *)
Lemma run_one_flag l : ∀ st st',
  run inst l st = Some st' →
  calm inst l st = true →
  xorb (isLoading st) (isFinished st) = true ∨
  (isLoading st = false ∧ isFinished st = false ∧
   existsb (transitions inst) l = true) →
  xorb (isLoading st') (isFinished st') = true.
Proof.
  induction l as [|a l IH]; simpl; intros st st' Hrun Hcalm Hpre.
  - injection Hrun as <-.
    destruct Hpre as [H|(_ & _ & H)]; [exact H|discriminate].
  - destruct (step inst a st) as [s|] eqn:Hs; [|discriminate].
    apply andb_true_iff in Hcalm as [Hturn Hcalm].
    apply (IH s st' Hrun Hcalm).
    destruct (step_flags a st s Hs)
      as [(Hi & Hf & _ & Ht)|[(Hi & Hf & _)|[(Hi & Hf)|[(Hi & Hf)|(Hi & Hf & H)]]]];
      rewrite Hi, Hf; try (left; reflexivity).
    + destruct Hpre as [H|(Hl0 & Hf0 & He)]; [left; exact H|].
      right. rewrite Ht in He. tauto.
    + destruct Hpre as [H|(Hl0 & Hf0 & He)]; [left; exact H|].
      destruct (transitions inst a) eqn:Ht.
      * destruct (transitions_flags a st s Hs Ht) as [[Hl1 Hf1]|[_ Hf1]];
          congruence.
      * right. tauto.
    + destruct H as (u & c & -> & Hr). simpl in Hturn. rewrite Hr in Hturn.
      apply negb_true_iff in Hturn. rewrite Hturn. left. reflexivity.
Qed.

(** With a bound address every turn is calm. *)
Lemma bound_address_calm u l : ∀ st,
  url inst = Some u → calm inst l st = true.
Proof.
  induction l as [|a l IH]; simpl; intros st Hu; [reflexivity|].
  apply andb_true_iff. split.
  - destruct a as [x c| | | |]; simpl; try reflexivity.
    pose proof (bound_address_resolves inst u x c Hu) as Hr.
    apply reaches_transport_true in Hr as (v & -> & Hv).
    destruct v; try reflexivity. contradiction.
  - destruct (step inst a st); [apply IH; exact Hu|reflexivity].
Qed.
End Flags.

(** C8, as stated, fails: on [easy], [execute("/a")] followed by
    [execute()] while the request is still loading leaves both
    [isLoading] and [isFinished] true. *)
Lemma both_flags_true :
  ∃ st,
    run easy [Execute (JStr "/a") JUndefined; Execute JUndefined JUndefined]
        (fresh JUndefined) = Some st ∧
    isLoading st = true ∧ isFinished st = true.
Proof. eexists. vm_compute. repeat split; reflexivity. Qed.

(** C8, amended: both flags are false on a new instance and stay so until
    an [execute] call first returns; from then on at least one of
    [isLoading] and [isFinished] is true after every turn.  Exactly one is
    true as long as no [execute] call that resolves no address is made
    while a request is loading, which can never happen on an instance with
    a bound address. *)
Theorem loading_flags_invariant inst d :
  (isLoading (fresh d) = false ∧ isFinished (fresh d) = false) ∧
  (∀ l st, run inst l (fresh d) = Some st →
     existsb (transitions inst) l = false →
     isLoading st = false ∧ isFinished st = false) ∧
  (∀ l st, run inst l (fresh d) = Some st →
     existsb (transitions inst) l = true →
     isLoading st || isFinished st = true) ∧
  (∀ l st, run inst l (fresh d) = Some st →
     existsb (transitions inst) l = true →
     calm inst l (fresh d) = true →
     xorb (isLoading st) (isFinished st) = true) ∧
  (∀ u l, url inst = Some u → calm inst l (fresh d) = true).
Proof.
  split; [split; reflexivity|].
  split; [|split; [|split]].
  - intros l st Hrun Hnone.
    apply (run_untouched inst l (fresh d) st Hrun Hnone). reflexivity.
  - intros l st Hrun Hsome.
    apply (run_some_flag inst l (fresh d) st Hrun). right. exact Hsome.
  - intros l st Hrun Hsome Hcalm.
    apply (run_one_flag inst l (fresh d) st Hrun Hcalm).
    right. repeat split; try reflexivity. exact Hsome.
  - intros u l Hu. apply (bound_address_calm inst u l). exact Hu.
Qed.

Lemma loading_flags_invariant_witness :
  let l := [Execute (JStr "/a") JUndefined;
            Fulfil 1 (reply 200 "0" "ok" JNull);
            Execute (JStr "/b") JUndefined;
            Finally 1;
            Reject 2 (failure "request:fail timeout");
            Finally 2;
            Execute JUndefined JUndefined] in
  ∃ st, run observed l (fresh JUndefined) = Some st ∧
        existsb (transitions observed) l = true ∧
        calm observed l (fresh JUndefined) = true ∧
        xorb (isLoading st) (isFinished st) = true.
Proof.
  eexists. split; [vm_compute; reflexivity|].
  split; [vm_compute; reflexivity|]. split; [vm_compute; reflexivity|].
  destruct (loading_flags_invariant observed JUndefined)
    as (_ & _ & _ & Hone & _).
  match goal with
  | |- xorb (isLoading ?s) _ = _ =>
      apply (Hone [Execute (JStr "/a") JUndefined;
                   Fulfil 1 (reply 200 "0" "ok" JNull);
                   Execute (JStr "/b") JUndefined;
                   Finally 1;
                   Reject 2 (failure "request:fail timeout");
                   Finally 2;
                   Execute JUndefined JUndefined] s)
  end; vm_compute; reflexivity.
Defined.

(** ** Construction (C10) *)

(** C10, as stated, fails: [useRequest("")] is in strict mode with
    [immediate] and [shallow] both defaulted to true, yet [execute()] does
    not fire during construction, because [immediate && url] is falsy for
    the empty string. *)
Lemma empty_address_no_auto_fire :
  useRequest [JStr EmptyString]
    = Some (strict_mode EmptyString (JObj ∅), fresh JUndefined) ∧
  immediate (strict_mode EmptyString (JObj ∅)) = JBool true ∧
  shallow (strict_mode EmptyString (JObj ∅)) = JBool true ∧
  effects (fresh JUndefined) = [] ∧
  executeCounter (fresh JUndefined) = 0.
Proof. vm_compute. repeat split; reflexivity. Qed.

(** C10, amended: in strict mode without an options argument
    ([useRequest(u)] or [useRequest(u, config)]) [immediate] and [shallow]
    default to true, the [data] cell is shallow, and [execute()] fires
    during construction when the address [u] is not the empty string.
    When the argument list has an options position
    ([2 + argsPlaceholder] or [3 + argsPlaceholder] arguments) and an
    object is there, every option is read from that object and none of the
    defaults is kept: an object without [immediate] gives no automatic
    [execute()], and one without [shallow] gives a deep [data] cell, in
    strict mode too. *)
Theorem construction_defaults_and_options :
  (∀ u rest, length rest ≤ 1 →
     let inst :=
       strict_mode u (match rest with [] => JObj ∅ | c :: _ => c end) in
     let fired := after (execute inst JUndefined JUndefined (fresh JUndefined)) in
     useRequest (JStr u :: rest) =
       Some (inst, if negb (String.eqb u EmptyString) then fired
                   else fresh JUndefined) ∧
     immediate inst = JBool true ∧ shallow inst = JBool true ∧
     data_cell inst = shallowRef ∧
     isLoading fired = true ∧ executeCounter fired = 1 ∧
     effects fired = [Request (descriptor inst (JStr u))]) ∧
  (∀ args o,
     length args = 2 + placeholder args ∨ length args = 3 + placeholder args →
     arg args (length args - 1) = JObj o →
     ∃ inst st, useRequest args = Some (inst, st) ∧
       immediate inst = default JUndefined (o !! "immediate") ∧
       shallow inst = default JUndefined (o !! "shallow") ∧
       initialData inst = default JUndefined (o !! "initialData") ∧
       resetOnExecute inst =
         with_default (default JUndefined (o !! "resetOnExecute")) (JBool false) ∧
       onSuccess inst = default JUndefined (o !! "onSuccess") ∧
       onError inst = default JUndefined (o !! "onError") ∧
       onFinish inst = default JUndefined (o !! "onFinish") ∧
       (o !! "immediate" = None → st = fresh (initialData inst)) ∧
       (o !! "shallow" = None → data_cell inst = ref)).
Proof.
  split.
  - intros u rest Hlen inst fired.
    split.
    { destruct rest as [|c [|c' rest']]; simpl in Hlen; try lia; reflexivity. }
    do 3 (split; [reflexivity|]).
    destruct (execute_to_transport inst JUndefined JUndefined
                (fresh JUndefined) (JStr u)) as (s & Hs & H);
      [reflexivity|discriminate|].
    subst fired. rewrite Hs. simpl. tauto.
  - intros args o Hlen Hlast. unfold useRequest.
    set (ph := match match arg args 0 with JStr s => Some s | _ => None end
               with Some _ => 1 | None => 0 end).
    assert (Hph : ph = placeholder args).
    { unfold ph, placeholder. destruct (arg args 0); reflexivity. }
    cbv zeta.
    replace (Nat.eqb (length args) (2 + ph) || Nat.eqb (length args) (3 + ph))
      with true
      by (symmetry; apply orb_true_iff; rewrite !Nat.eqb_eq, Hph; exact Hlen).
    rewrite Hlast. cbn [get_prop mbind option_bind].
    eexists _, _. split; [reflexivity|].
    cbn [immediate shallow initialData resetOnExecute onSuccess onError onFinish].
    do 7 (split; [reflexivity|]).
    split.
    + intros ->. reflexivity.
    + intros Hs. unfold data_cell. cbn [shallow]. rewrite Hs. reflexivity.
Qed.

Lemma construction_defaults_and_options_witness :
  (∃ st, useRequest [JStr "/a"] = Some (strict_mode "/a" (JObj ∅), st) ∧
         isLoading st = true ∧
         effects st = [Request {[ "url" := JStr "/a" ]}]) ∧
  (∃ inst, useRequest [JStr "/a"; JObj ∅; JObj {[ "onFinish" := JFun "done" ]}]
             = Some (inst, fresh JUndefined) ∧
           data_cell inst = ref).
Proof.
  destruct construction_defaults_and_options as [Hdef Hopt].
  split.
  - destruct (Hdef "/a" []) as (Hu & _ & _ & _ & Hl & _ & He);
      [simpl; lia|].
    eexists. split; [exact Hu|]. split; [exact Hl|].
    rewrite He. vm_compute. reflexivity.
  - destruct (Hopt [JStr "/a"; JObj ∅; JObj {[ "onFinish" := JFun "done" ]}]
                {[ "onFinish" := JFun "done" ]})
      as (inst & st & Hu & _ & _ & Hi & _ & _ & _ & _ & Hno & Hdeep);
      [left; reflexivity|reflexivity|].
    exists inst. split; [|apply Hdeep; vm_compute; reflexivity].
    rewrite Hu, (Hno ltac:(vm_compute; reflexivity)), Hi.
    vm_compute. reflexivity.
Defined.


(** * Further properties *)

(** ** The interceptor, in full *)

(** X1: the interceptor leaves an address that starts with "http" as it
    is and puts the base URL in front of any other. *)
Theorem invoke_address baseURL options options' :
  httpInterceptor.invoke baseURL options = httpInterceptor.Rewritten options' →
  ∃ u, options !! "url" = Some (JStr u) ∧
       (String.prefix "http" u = true → options' !! "url" = Some (JStr u)) ∧
       (String.prefix "http" u = false →
        options' !! "url" = Some (JStr (String.append baseURL u))).
Proof.
  unfold httpInterceptor.invoke.
  destruct (options !! "url") as [[| | | |u| |p]|] eqn:Hu; try discriminate;
    [|destruct (p !! "startsWith") as [[]|]; discriminate].
  intros [= <-]. exists u. split; [reflexivity|].
  rewrite !lookup_insert_ne by discriminate.
  split; intros ->; [exact Hu|apply lookup_insert_eq].
Qed.

(** X2: the timeout the transport sees is 10000 whatever the caller asked
    for, and every option other than [url], [timeout] and [header] passes
    through unchanged. *)
Theorem invoke_timeout_and_rest baseURL options options' :
  httpInterceptor.invoke baseURL options = httpInterceptor.Rewritten options' →
  options' !! "timeout" = Some (JNum 10000) ∧
  ∀ k, k ≠ "url" → k ≠ "timeout" → k ≠ "header" →
       options' !! k = options !! k.
Proof.
  unfold httpInterceptor.invoke.
  destruct (options !! "url") as [[| | | |u| |p]|] eqn:Hu; try discriminate;
    [|destruct (p !! "startsWith") as [[]|]; discriminate].
  intros [= <-]. split.
  - rewrite lookup_insert_ne by discriminate. apply lookup_insert_eq.
  - intros k Hk1 Hk2 Hk3.
    rewrite !lookup_insert_ne by congruence.
    destruct (String.prefix "http" u); [reflexivity|].
    apply lookup_insert_ne. congruence.
Qed.

(** X3: the headers the transport sees are the caller's, with
    [source-client] set to "miniprogram" (replacing the caller's own, if
    any); no other header is added, removed or changed, so an
    [Authorization] header is there only if the caller put it. *)
Theorem invoke_headers baseURL options options' :
  httpInterceptor.invoke baseURL options = httpInterceptor.Rewritten options' →
  ∃ h, options' !! "header" = Some (JObj h) ∧
       h !! "source-client" = Some (JStr "miniprogram") ∧
       ∀ k, k ≠ "source-client" →
            h !! k = own_props (default JUndefined (options !! "header")) !! k.
Proof.
  unfold httpInterceptor.invoke.
  destruct (options !! "url") as [[| | | |u| |p]|] eqn:Hu; try discriminate;
    [|destruct (p !! "startsWith") as [[]|]; discriminate].
  intros [= <-]. eexists. split; [apply lookup_insert_eq|].
  split; [apply lookup_insert_eq|].
  intros k Hk. rewrite lookup_insert_ne by congruence.
  rewrite lookup_insert_ne by discriminate.
  destruct (String.prefix "http" u); [reflexivity|].
  rewrite lookup_insert_ne by discriminate. reflexivity.
Qed.

(** X4: the interceptor throws exactly when [options.url.startsWith] is
    not there to be called: [url] is neither a string nor an object with a
    function under [startsWith]. *)
Theorem invoke_throws_iff baseURL options :
  httpInterceptor.invoke baseURL options = httpInterceptor.Threw ↔
  (∀ u, options !! "url" ≠ Some (JStr u)) ∧
  (∀ p f, options !! "url" = Some (JObj p) →
          p !! "startsWith" ≠ Some (JFun f)).
Proof.
  unfold httpInterceptor.invoke.
  destruct (options !! "url") as [[| | | |u| |p]|] eqn:Hu;
    try (split; [intros _; split; [intros u' Hc; discriminate Hc
                                  |intros p' f' Hc; discriminate Hc]
                |reflexivity]).
  - split; [discriminate|]. intros [H _]. exfalso. eapply H. reflexivity.
  - destruct (p !! "startsWith") as [[| | | | |f|]|] eqn:Hs;
      try (split; [intros _; split; [intros u' Hc; discriminate Hc
                                    |intros p' f' [= <-] Hc; congruence]
                  |reflexivity]).
    split; [discriminate|]. intros [_ H]. exfalso.
    eapply (H p f); [reflexivity|exact Hs].
Qed.

Lemma prefix_append p : ∀ b u,
  String.prefix p b = true → String.prefix p (String.append b u) = true.
Proof.
  induction p as [|a p IH]; intros b u.
  { intros _. destruct (String.append b u); reflexivity. }
  destruct b as [|c b]; simpl; [discriminate|].
  destruct (Ascii.ascii_dec a c); [apply IH|discriminate].
Qed.

(** X5: when the base URL itself starts with "http", running the
    interceptor a second time over its own result changes nothing. *)
Theorem invoke_idempotent baseURL options options' :
  String.prefix "http" baseURL = true →
  httpInterceptor.invoke baseURL options = httpInterceptor.Rewritten options' →
  httpInterceptor.invoke baseURL options' = httpInterceptor.Rewritten options'.
Proof.
  intros Hb. unfold httpInterceptor.invoke at 1.
  destruct (options !! "url") as [[| | | |u| |p]|] eqn:Hu; try discriminate;
    [|destruct (p !! "startsWith") as [[]|]; discriminate].
  intros [= <-].
  set (o1 := if String.prefix "http" u then options
             else <[ "url" := JStr (String.append baseURL u) ]> options).
  set (h := <[ "source-client" := JStr "miniprogram" ]>
              (own_props (default JUndefined
                            (<[ "timeout" := JNum 10000 ]> o1 !! "header")))).
  set (o' := <[ "header" := JObj h ]> (<[ "timeout" := JNum 10000 ]> o1)).
  assert (Hurl : ∃ u1, o' !! "url" = Some (JStr u1) ∧
                       String.prefix "http" u1 = true).
  { unfold o', o1. rewrite !lookup_insert_ne by discriminate.
    destruct (String.prefix "http" u) eqn:Hp.
    - exists u. split; assumption.
    - exists (String.append baseURL u).
      split; [apply lookup_insert_eq|apply prefix_append; exact Hb]. }
  destruct Hurl as (u1 & Hu1 & Hp1).
  assert (Ht : o' !! "timeout" = Some (JNum 10000)).
  { unfold o'. rewrite lookup_insert_ne by discriminate.
    apply lookup_insert_eq. }
  assert (Hh : o' !! "header" = Some (JObj h)).
  { unfold o'. apply lookup_insert_eq. }
  unfold httpInterceptor.invoke. rewrite Hu1, Hp1.
  rewrite (insert_id o' "timeout" (JNum 10000) Ht).
  rewrite Hh. simpl.
  replace (<[ "source-client" := JStr "miniprogram" ]> h) with h
    by (unfold h; rewrite insert_insert_eq; reflexivity).
  rewrite (insert_id o' "header" (JObj h) Hh). reflexivity.
Qed.

(** The options of a request to a relative address, with a caller's
    timeout and headers. *)
Lemma invoke_witness_options :
  httpInterceptor.invoke "https://api.example"
    {[ "url" := JStr "/users"; "timeout" := JNum 5;
       "method" := JStr "POST";
       "header" := JObj {[ "Authorization" := JStr "t";
                           "source-client" := JStr "web" ]} ]}
  = httpInterceptor.Rewritten
      {[ "url" := JStr "https://api.example/users";
            "timeout" := JNum 10000;
            "method" := JStr "POST";
            "header" := JObj {[ "Authorization" := JStr "t";
                                "source-client" := JStr "miniprogram" ]} ]}.
Proof. vm_compute. reflexivity. Defined.

Lemma invoke_address_witness :
  httpInterceptor.invoke "https://api.example"
    {[ "url" := JStr "/users"; "timeout" := JNum 5;
       "method" := JStr "POST";
       "header" := JObj {[ "Authorization" := JStr "t";
                           "source-client" := JStr "web" ]} ]}
  = httpInterceptor.Rewritten
      {[ "url" := JStr "https://api.example/users";
            "timeout" := JNum 10000;
            "method" := JStr "POST";
            "header" := JObj {[ "Authorization" := JStr "t";
                                "source-client" := JStr "miniprogram" ]} ]} ∧
  ∃ u, String.prefix "http" u = false ∧
       ({[ "url" := JStr "https://api.example/users";
           "timeout" := JNum 10000;
           "method" := JStr "POST";
           "header" := JObj {[ "Authorization" := JStr "t";
                               "source-client" := JStr "miniprogram" ]} ]}
          : gmap string jsval) !! "url"
       = Some (JStr (String.append "https://api.example" u)).
Proof.
  split; [exact invoke_witness_options|].
  destruct (invoke_address _ _ _ invoke_witness_options)
    as (u & Hu & _ & Hrel).
  exists u. vm_compute in Hu. injection Hu as <-.
  split; [reflexivity|]. apply Hrel. reflexivity.
Defined.

Lemma invoke_timeout_and_rest_witness :
  ({[ "url" := JStr "https://api.example/users";
      "timeout" := JNum 10000;
      "method" := JStr "POST";
      "header" := JObj {[ "Authorization" := JStr "t";
                          "source-client" := JStr "miniprogram" ]} ]}
     : gmap string jsval) !! "timeout" = Some (JNum 10000) ∧
  ({[ "url" := JStr "https://api.example/users";
      "timeout" := JNum 10000;
      "method" := JStr "POST";
      "header" := JObj {[ "Authorization" := JStr "t";
                          "source-client" := JStr "miniprogram" ]} ]}
     : gmap string jsval) !! "method" = Some (JStr "POST").
Proof.
  destruct (invoke_timeout_and_rest _ _ _ invoke_witness_options)
    as (Ht & Hrest).
  split; [exact Ht|].
  rewrite (Hrest "method") by discriminate. vm_compute. reflexivity.
Defined.

Lemma invoke_headers_witness :
  ∃ h, ({[ "url" := JStr "https://api.example/users";
           "timeout" := JNum 10000;
           "method" := JStr "POST";
           "header" := JObj {[ "Authorization" := JStr "t";
                               "source-client" := JStr "miniprogram" ]} ]}
          : gmap string jsval) !! "header" = Some (JObj h) ∧
       h !! "source-client" = Some (JStr "miniprogram") ∧
       h !! "Authorization" = Some (JStr "t").
Proof.
  destruct (invoke_headers _ _ _ invoke_witness_options)
    as (h & Hh & Hsc & Hrest).
  exists h. split; [exact Hh|]. split; [exact Hsc|].
  rewrite (Hrest "Authorization") by discriminate. vm_compute. reflexivity.
Defined.

Lemma invoke_throws_iff_witness :
  httpInterceptor.invoke "https://api.example" {[ "url" := JNum 7 ]}
    = httpInterceptor.Threw ∧
  httpInterceptor.invoke "https://api.example"
    {[ "url" := JObj {[ "startsWith" := JFun "always" ]} ]}
    ≠ httpInterceptor.Threw.
Proof.
  split.
  - apply (invoke_throws_iff "https://api.example" {[ "url" := JNum 7 ]}).
    split; [intros u|intros p f]; vm_compute; discriminate.
  - intros H.
    apply (invoke_throws_iff "https://api.example"
             {[ "url" := JObj {[ "startsWith" := JFun "always" ]} ]}) in H.
    destruct H as [_ H].
    apply (H {[ "startsWith" := JFun "always" ]} "always");
      vm_compute; reflexivity.
Defined.

Lemma invoke_idempotent_witness :
  httpInterceptor.invoke "https://api.example"
    {[ "url" := JStr "https://api.example/users";
       "timeout" := JNum 10000;
       "method" := JStr "POST";
       "header" := JObj {[ "Authorization" := JStr "t";
                           "source-client" := JStr "miniprogram" ]} ]}
  = httpInterceptor.Rewritten
      {[ "url" := JStr "https://api.example/users";
            "timeout" := JNum 10000;
            "method" := JStr "POST";
            "header" := JObj {[ "Authorization" := JStr "t";
                                "source-client" := JStr "miniprogram" ]} ]}.
Proof.
  apply (invoke_idempotent "https://api.example" _ _ eq_refl
           invoke_witness_options).
Defined.

(** ** Construction, in full *)

(** X6: [useRequest] throws exactly when the argument list has an options
    position and the value there is [undefined] or [null]: passing
    [undefined] explicitly for the options fails, where leaving the
    argument out does not. *)
Theorem useRequest_throws_iff args :
  useRequest args = None ↔
  (length args = 2 + placeholder args ∨ length args = 3 + placeholder args) ∧
  (arg args (length args - 1) = JUndefined ∨
   arg args (length args - 1) = JNull).
Proof.
  unfold useRequest.
  set (ph := match match arg args 0 with JStr s => Some s | _ => None end
             with Some _ => 1 | None => 0 end).
  assert (Hph : ph = placeholder args).
  { unfold ph, placeholder. destruct (arg args 0); reflexivity. }
  cbv zeta. rewrite <- Hph.
  destruct (Nat.eqb (length args) (2 + ph) || Nat.eqb (length args) (3 + ph))
    eqn:Hpos.
  - apply orb_true_iff in Hpos. rewrite !Nat.eqb_eq in Hpos.
    destruct (arg args (length args - 1)) eqn:Hlast;
      cbn [get_prop mbind option_bind]; split;
      try discriminate; try (intros _; split; auto);
      intros [_ [H|H]]; discriminate H.
  - apply orb_false_iff in Hpos. rewrite !Nat.eqb_neq in Hpos.
    cbn [get_prop mbind option_bind]. split; [discriminate|].
    intros [[H|H] _]; tauto.
Qed.

Lemma useRequest_throws_iff_witness :
  useRequest [JStr "/a"; JObj ∅; JUndefined] = None ∧
  useRequest [JStr "/a"; JObj ∅] ≠ None.
Proof.
  split.
  - apply (useRequest_throws_iff [JStr "/a"; JObj ∅; JUndefined]).
    split; [left; reflexivity|left; reflexivity].
  - intros H. apply (useRequest_throws_iff [JStr "/a"; JObj ∅]) in H.
    destruct H as [[H|H] _]; vm_compute in H; discriminate H.
Defined.

(** X7: construction calls the transport at most once.  It does so exactly
    when [immediate] is truthy and the first argument is a non-empty
    string; without a string first argument nothing fires, whatever
    [immediate] says.  Either way the [data] cell starts out as
    [initialData]. *)
Theorem construction_fires_at_most_once args inst st :
  useRequest args = Some (inst, st) →
  url inst = match arg args 0 with JStr s => Some s | _ => None end ∧
  count_requests (effects st) =
    (if truthy (immediate inst) && truthy (url_value inst) then 1 else 0) ∧
  executeCounter st = count_requests (effects st) ∧
  isLoading st = truthy (immediate inst) && truthy (url_value inst) ∧
  isFinished st = false ∧
  data st = initialData inst ∧
  ((∀ s, arg args 0 ≠ JStr s) → st = fresh (initialData inst)).
Proof.
  unfold useRequest.
  set (u := match arg args 0 with JStr s => Some s | _ => None end).
  set (ph := match u with Some _ => 1 | None => 0 end).
  cbv zeta.
  set (dc := if decide (0 + ph < length args) then arg args (0 + ph)
             else JObj ∅).
  match goal with
  | |- context [get_prop ?o "initialData"] => set (options := o)
  end.
  destruct (get_prop options "initialData") as [v1|]; [|discriminate].
  destruct (get_prop options "shallow") as [v2|]; [|discriminate].
  destruct (get_prop options "immediate") as [v3|]; [|discriminate].
  destruct (get_prop options "resetOnExecute") as [v4|]; [|discriminate].
  destruct (get_prop options "onSuccess") as [v5|]; [|discriminate].
  destruct (get_prop options "onError") as [v6|]; [|discriminate].
  destruct (get_prop options "onFinish") as [v7|]; [|discriminate].
  cbn [mbind option_bind]. intros [= <- <-].
  cbn [url immediate initialData].
  split; [reflexivity|].
  set (inst := {| url := u; defaultConfig := dc; initialData := v1;
                  shallow := v2; immediate := v3;
                  resetOnExecute := with_default v4 (JBool false);
                  onSuccess := v5; onError := v6; onFinish := v7 |}).
  assert (Heasy : (∀ s, arg args 0 ≠ JStr s) → url_value inst = JUndefined).
  { intros Hs. unfold url_value, inst, u. cbn [url].
    destruct (arg args 0); try reflexivity. exfalso. eapply Hs. reflexivity. }
  destruct (truthy v3 && truthy (url_value inst)) eqn:Hfire.
  - apply andb_true_iff in Hfire as [_ Hu].
    assert (Hr : ∃ s, resolve_url inst JUndefined JUndefined = Some (JStr s)).
    { unfold resolve_url, url_value in *. cbn [url] in *.
      destruct u as [s|]; [|discriminate]. exists s. reflexivity. }
    destruct Hr as (s & Hr).
    destruct (execute_to_transport inst JUndefined JUndefined (fresh v1)
                (JStr s) Hr) as (st' & -> & Hl & Hf & _ & _ & Hd & Hc & _ & He);
      [discriminate|].
    cbn [after]. rewrite He, Hc, Hl, Hf, Hd. cbn [effects fresh executeCounter data].
    repeat split; try reflexivity.
    + unfold inst. cbn [resetOnExecute initialData].
      destruct (truthy (with_default v4 (JBool false))); reflexivity.
    + intros Hs. rewrite (Heasy Hs) in Hu. discriminate.
  - repeat split; reflexivity.
Qed.

Lemma construction_fires_at_most_once_witness :
  let inst :=
    {| url := None; defaultConfig := JObj ∅; initialData := JNum 3;
       shallow := JUndefined; immediate := JBool true;
       resetOnExecute := JBool false;
       onSuccess := JUndefined; onError := JUndefined;
       onFinish := JUndefined |} in
  useRequest [JObj ∅; JObj {[ "immediate" := JBool true;
                              "initialData" := JNum 3 ]}]
    = Some (inst, fresh (JNum 3)) ∧
  count_requests (effects (fresh (JNum 3))) = 0 ∧
  isLoading (fresh (JNum 3)) = false.
Proof.
  intros inst.
  assert (H : useRequest [JObj ∅; JObj {[ "immediate" := JBool true;
                                          "initialData" := JNum 3 ]}]
              = Some (inst, fresh (JNum 3))) by (vm_compute; reflexivity).
  split; [exact H|].
  destruct (construction_fires_at_most_once _ _ _ H)
    as (_ & Hn & _ & Hl & _).
  split; [exact Hn|exact Hl].
Defined.

(** ** [execute], in full *)

(** X8: with [resetOnExecute] truthy, an [execute] call that reaches the
    transport puts [initialData] back into [data] before any response
    arrives, whatever an earlier response had written there; a call that
    resolves no address, or throws, returns before the reset and leaves
    [data] alone.  Without [resetOnExecute] no call writes [data]. *)
Theorem resetOnExecute_resets_data inst executeUrl config st :
  (truthy (resetOnExecute inst) = true →
   reaches_transport inst executeUrl config = true →
   data (after (execute inst executeUrl config st)) = initialData inst) ∧
  (reaches_transport inst executeUrl config = false →
   data (after (execute inst executeUrl config st)) = data st) ∧
  (truthy (resetOnExecute inst) = false →
   data (after (execute inst executeUrl config st)) = data st).
Proof.
  assert (Hreach : reaches_transport inst executeUrl config = true →
                   data (after (execute inst executeUrl config st)) =
                   if truthy (resetOnExecute inst) then initialData inst
                   else data st).
  { intros Hr. apply reaches_transport_true in Hr as (u & Hr & Hu).
    destruct (execute_to_transport inst executeUrl config st u Hr Hu)
      as (st' & -> & H). simpl. tauto. }
  assert (Hnot : reaches_transport inst executeUrl config = false →
                 data (after (execute inst executeUrl config st)) = data st).
  { intros Hr. apply reaches_transport_false in Hr as [Hr|Hr].
    - rewrite (execute_no_address inst executeUrl config st Hr). reflexivity.
    - rewrite (execute_throws inst executeUrl config st Hr). reflexivity. }
  split; [|split].
  - intros Ht Hr. rewrite (Hreach Hr), Ht. reflexivity.
  - exact Hnot.
  - intros Ht. destruct (reaches_transport inst executeUrl config) eqn:Hr.
    + rewrite (Hreach eq_refl), Ht. reflexivity.
    + apply Hnot. reflexivity.
Qed.

Lemma resetOnExecute_resets_data_witness :
  let st := after (onFulfilled resetting (reply 200 "0" "ok" (JNum 9))
                     (fresh (JNum 0))) in
  data st = JNum 9 ∧
  data (after (execute resetting (JStr "/a") JUndefined st)) = JNum 0 ∧
  data (after (execute resetting JUndefined JUndefined st)) = JNum 9.
Proof.
  intros st. split; [reflexivity|].
  destruct (resetOnExecute_resets_data resetting (JStr "/a") JUndefined st)
    as (Hreset & _ & _).
  destruct (resetOnExecute_resets_data resetting JUndefined JUndefined st)
    as (_ & Hkeep & _).
  split; [apply Hreset; reflexivity|apply Hkeep; reflexivity].
Defined.

(** X9: [execute] throws exactly when there is no string argument, no
    bound address, and the config argument is [null]; all it has done by
    then is clear [error]. *)
Theorem execute_throws_iff inst executeUrl config st :
  (returns (execute inst executeUrl config st) = false ↔
   (∀ s, executeUrl ≠ JStr s) ∧ url inst = None ∧ config = JNull) ∧
  (returns (execute inst executeUrl config st) = false →
   execute inst executeUrl config st =
   Throw TypeError (set_error JUndefined st)).
Proof.
  assert (Hres : resolve_url inst executeUrl config = None ↔
                 (∀ s, executeUrl ≠ JStr s) ∧ url inst = None ∧
                 config = JNull).
  { unfold resolve_url, url_value.
    destruct (url inst) as [u|] eqn:Hu.
    - split; [destruct executeUrl; discriminate|].
      intros (_ & H & _). discriminate H.
    - destruct executeUrl; cbn [with_default];
        try (split; [intros H; destruct config; try discriminate H;
                     repeat split; try reflexivity; intros s; discriminate
                    |intros (_ & _ & ->); reflexivity]).
      split; [discriminate|]. intros (H & _). exfalso. eapply H. reflexivity. }
  assert (Hret : returns (execute inst executeUrl config st) = false ↔
                 resolve_url inst executeUrl config = None).
  { unfold execute.
    destruct (resolve_url inst executeUrl config) as [[]|]; simpl;
      split; try discriminate; reflexivity. }
  split.
  - rewrite Hret. exact Hres.
  - intros H. apply Hret in H. apply execute_throws. exact H.
Qed.

Lemma execute_throws_iff_witness :
  execute easy (JObj ∅) JNull easy_loading =
  Throw TypeError (set_error JUndefined easy_loading).
Proof.
  destruct (execute_throws_iff easy (JObj ∅) JNull easy_loading)
    as (Hiff & Hst).
  apply Hst. apply Hiff.
  split; [intros s; discriminate|split; reflexivity].
Defined.

(** X10: on an instance with a bound address every [execute] call reaches
    the transport: it never fails with ERR_INVALID_URL and never throws.
    The address resolved is the string argument when there is one and the
    bound address otherwise; the config argument plays no part.  The
    descriptor handed to the transport is built from that address and the
    default config, and the default config comes last: the [url] requested
    is the resolved address when the default config has no [url] of its
    own, and the default config's [url] when it has one. *)
Theorem bound_address_always_requests inst u executeUrl config st :
  url inst = Some u →
  let address := match executeUrl with JStr s => s | _ => u end in
  ∃ st', execute inst executeUrl config st = Normal st' ∧
    effects st' = effects st ++ [Request (descriptor inst (JStr address))] ∧
    executeCounter st' = executeCounter st + 1 ∧
    isLoading st' = true ∧ isFinished st' = false ∧ error st' = JUndefined ∧
    (own_props (defaultConfig inst) !! "url" = None →
     descriptor inst (JStr address) !! "url" = Some (JStr address)) ∧
    (∀ v, own_props (defaultConfig inst) !! "url" = Some v →
          descriptor inst (JStr address) !! "url" = Some v).
Proof.
  intros Hu address.
  assert (Hr : resolve_url inst executeUrl config = Some (JStr address)).
  { unfold resolve_url, url_value, address. rewrite Hu.
    destruct executeUrl; reflexivity. }
  destruct (execute_to_transport inst executeUrl config st (JStr address) Hr)
    as (st' & He & Hl & Hf & Herr & _ & _ & Hc & _ & Heff); [discriminate|].
  exists st'. do 6 (split; [assumption|]). split.
  - intros Hn. unfold descriptor.
    rewrite lookup_union_r by exact Hn. apply lookup_singleton_eq.
  - intros v Hv. unfold descriptor.
    apply lookup_union_Some_l. exact Hv.
Qed.

Lemma bound_address_always_requests_witness :
  (∃ st', execute (strict_mode "/a" (JObj ∅)) (JStr "/b")
            (JObj {[ "url" := JStr "/c" ]}) (fresh JUndefined) = Normal st' ∧
          effects st' = [Request {[ "url" := JStr "/b" ]}]) ∧
  descriptor (strict_mode "/a" (JObj {[ "url" := JStr "/cfg" ]})) (JStr "/b")
    !! "url" = Some (JStr "/cfg").
Proof.
  split.
  - destruct (bound_address_always_requests (strict_mode "/a" (JObj ∅)) "/a"
                (JStr "/b") (JObj {[ "url" := JStr "/c" ]}) (fresh JUndefined)
                eq_refl) as (st' & He & Heff & _).
    exists st'. split; [exact He|]. rewrite Heff. vm_compute. reflexivity.
  - destruct (bound_address_always_requests
                (strict_mode "/a" (JObj {[ "url" := JStr "/cfg" ]})) "/a"
                (JStr "/b") JUndefined (fresh JUndefined) eq_refl)
      as (st' & _ & _ & _ & _ & _ & _ & _ & Hcfg).
    apply Hcfg. vm_compute. reflexivity.
Defined.

(** ** Invariants of an instance *)

Lemma count_requests_app l1 l2 :
  count_requests (l1 ++ l2) = count_requests l1 + count_requests l2.
Proof.
  induction l1 as [|[] l1 IH]; simpl; rewrite ?IH; reflexivity.
Qed.

Lemma call_opt_requests f args st :
  count_requests (effects (after (call_opt f args st))) =
  count_requests (effects st).
Proof.
  rewrite call_opt_effects, count_requests_app.
  destruct f; simpl; lia.
Qed.

Lemma onFulfilled_requests inst res st :
  count_requests (effects (after (onFulfilled inst res st))) =
  count_requests (effects st).
Proof.
  unfold onFulfilled.
  destruct (_ && _)%Z.
  - destruct (get_prop (Res.data res) "data") as [d|]; [|reflexivity].
    cbv zeta. rewrite call_opt_requests. reflexivity.
  - destruct (Res.statusCode res =? 401)%Z; [reflexivity|].
    destruct (get_prop (Res.data res) "msg") as [m|]; [|reflexivity].
    cbv zeta. rewrite call_opt_requests. unfold showToast, emit.
    cbn [effects]. rewrite count_requests_app. simpl. lia.
Qed.

Lemma onRejected_requests inst e st :
  count_requests (effects (after (onRejected inst e st))) =
  count_requests (effects st).
Proof.
  rewrite onRejected_effects, count_requests_app.
  unfold toast. destruct (onError inst); simpl; lia.
Qed.

Lemma onFinally_requests inst k st :
  count_requests (effects (after (onFinally inst k st))) =
  count_requests (effects st).
Proof.
  unfold onFinally. destruct (Nat.eqb k (executeCounter st)); [|reflexivity].
  rewrite call_opt_requests. reflexivity.
Qed.

Lemma fresh_consistent d : Consistent (fresh d).
Proof.
  unfold Consistent. simpl. split; [|split; [reflexivity|split]].
  - intros k p H. rewrite lookup_empty in H. discriminate.
  - discriminate.
  - intros [p H]. rewrite lookup_empty in H. discriminate.
Qed.

Lemma step_consistent inst a st st' :
  Consistent st → step inst a st = Some st' → Consistent st'.
Proof.
  intros (Hk & Hn & Hl) Hs.
  assert (Hhandler : ∀ s k p0 p,
            chains st !! k = Some p0 →
            isLoading s = isLoading st →
            executeCounter s = executeCounter st →
            chains s = chains st →
            count_requests (effects s) = count_requests (effects st) →
            Consistent (set_chains (<[k := p]> (chains s)) s)).
  { intros s k p0 p Hp Hil Hc Hch Hcnt. unfold Consistent. simpl.
    rewrite Hc, Hch, Hcnt, Hil. split; [|split; [exact Hn|]].
    - intros k' p'. destruct (decide (k = k')) as [<-|Hne].
      + intros _. eapply Hk, Hp.
      + rewrite lookup_insert_ne by exact Hne. apply Hk.
    - rewrite Hl. destruct (decide (k = executeCounter st)) as [->|Hne].
      + rewrite lookup_insert_eq, Hp. split; eauto.
      + rewrite lookup_insert_ne by exact Hne. reflexivity. }
  destruct a as [u c|k res|k e|k|k]; simpl in Hs.
  - injection Hs as <-.
    destruct (resolve_url inst u c) as [v|] eqn:Hr.
    + destruct (undefined_or_not v) as [->|Hv].
      * rewrite (execute_no_address inst u c st Hr).
        unfold Consistent. simpl. split; [exact Hk|split; [exact Hn|exact Hl]].
      * destruct (execute_to_transport inst u c st v Hr Hv)
          as (s & -> & Hil & _ & _ & _ & _ & Hc & Hch & He).
        unfold Consistent. simpl. rewrite Hc, Hch, He, Hil.
        split; [|split].
        -- intros k p. destruct (decide (executeCounter st + 1 = k)) as [<-|Hne].
           ++ intros _. lia.
           ++ rewrite lookup_insert_ne by exact Hne.
              intros H. apply Hk in H. lia.
        -- rewrite count_requests_app. simpl. lia.
        -- rewrite lookup_insert_eq. split; eauto.
    + rewrite (execute_throws inst u c st Hr).
      unfold Consistent. simpl. split; [exact Hk|split; [exact Hn|exact Hl]].
  - destruct (chains st !! k) as [[]|] eqn:Hp; try discriminate.
    pose proof (onFulfilled_frame inst res st) as Hfr.
    pose proof (onFulfilled_requests inst res st) as Hcnt.
    destruct (onFulfilled inst res st) as [s|e s]; injection Hs as <-;
      simpl in Hfr, Hcnt; eapply Hhandler; eauto; tauto.
  - destruct (chains st !! k) as [[]|] eqn:Hp; try discriminate.
    injection Hs as <-.
    pose proof (onRejected_frame inst e st) as Hfr. simpl in Hfr.
    eapply Hhandler; eauto; try tauto. apply onRejected_requests.
  - destruct (chains st !! k) as [[|e|]|] eqn:Hp; try discriminate.
    injection Hs as <-.
    pose proof (onRejected_frame inst e st) as Hfr. simpl in Hfr.
    eapply Hhandler; eauto; try tauto. apply onRejected_requests.
  - destruct (chains st !! k) as [[]|] eqn:Hp; try discriminate.
    injection Hs as <-.
    pose proof (onFinally_requests inst k st) as Hcnt.
    destruct (Nat.eq_dec k (executeCounter st)) as [->|Hne].
    + pose proof (onFinally_live inst st) as H. simpl in H.
      destruct H as (Hil & _ & _ & _ & _ & Hc & Hch & _).
      unfold Consistent. simpl. rewrite Hc, Hch, Hcnt, Hil.
      split; [|split; [exact Hn|]].
      * intros k p H. apply lookup_delete_Some in H as [_ H]. eapply Hk, H.
      * rewrite lookup_delete_eq. split; [discriminate|].
        intros [p H]. discriminate H.
    + rewrite (onFinally_stale inst k st Hne) in *. simpl.
      unfold Consistent. simpl. split; [|split; [exact Hn|]].
      * intros k' p H. apply lookup_delete_Some in H as [_ H]. eapply Hk, H.
      * rewrite lookup_delete_ne by exact Hne. exact Hl.
Qed.

Lemma run_consistent inst l : ∀ st st',
  Consistent st → run inst l st = Some st' → Consistent st'.
Proof.
  induction l as [|a l IH]; simpl; intros st st' Hc.
  - intros [= <-]. exact Hc.
  - destruct (step inst a st) as [s|] eqn:Hs; [|discriminate].
    apply IH. eapply step_consistent; eassumption.
Qed.

(** X11: on every state reached from a new instance, the generations of
    the chains in progress lie between 1 and the counter.  The next
    [execute] therefore captures a generation no chain in progress has:
    two invocations never share one. *)
Theorem generations_are_fresh inst d l st :
  run inst l (fresh d) = Some st →
  (∀ k p, chains st !! k = Some p → 1 ≤ k ≤ executeCounter st) ∧
  chains st !! (executeCounter st + 1) = None.
Proof.
  intros Hrun.
  destruct (run_consistent inst l (fresh d) st (fresh_consistent d) Hrun)
    as (Hk & _ & _).
  split; [exact Hk|].
  destruct (chains st !! (executeCounter st + 1)) as [p|] eqn:Hp;
    [|reflexivity].
  apply Hk in Hp. lia.
Qed.

Lemma generations_are_fresh_witness :
  ∃ st, run easy [Execute (JStr "/a") JUndefined;
                  Execute (JStr "/b") JUndefined;
                  Reject 1 (failure "request:fail timeout")]
            (fresh JUndefined) = Some st ∧
        chains st !! 3 = None ∧ chains st !! 2 = Some AwaitsTransport.
Proof.
  eexists. split; [vm_compute; reflexivity|].
  split; [|vm_compute; reflexivity].
  match goal with
  | |- chains ?s !! _ = _ =>
      apply (generations_are_fresh easy JUndefined
               [Execute (JStr "/a") JUndefined;
                Execute (JStr "/b") JUndefined;
                Reject 1 (failure "request:fail timeout")] s)
  end.
  vm_compute. reflexivity.
Defined.

(** X12: on every state reached from a new instance, the generation
    counter equals the number of transport calls made so far: every call
    of the transport is one generation, and no handler calls the
    transport. *)
Theorem counter_counts_requests inst d l st :
  run inst l (fresh d) = Some st →
  count_requests (effects st) = executeCounter st.
Proof.
  intros Hrun.
  apply (run_consistent inst l (fresh d) st (fresh_consistent d) Hrun).
Qed.

Lemma counter_counts_requests_witness :
  ∃ st, run observed [Execute (JStr "/a") JUndefined;
                      Execute JUndefined JUndefined;
                      Fulfil 1 (reply 500 "E" "boom" JNull);
                      Execute (JStr "/b") JUndefined;
                      Finally 1]
            (fresh JUndefined) = Some st ∧
        count_requests (effects st) = 2 ∧ length (effects st) = 4.
Proof.
  eexists. split; [vm_compute; reflexivity|].
  split; [|vm_compute; reflexivity].
  match goal with
  | |- count_requests (effects ?s) = _ =>
      rewrite (counter_counts_requests observed JUndefined
                 [Execute (JStr "/a") JUndefined;
                  Execute JUndefined JUndefined;
                  Fulfil 1 (reply 500 "E" "boom" JNull);
                  Execute (JStr "/b") JUndefined;
                  Finally 1] s)
  end; vm_compute; reflexivity.
Defined.

(** X13: on every state reached from a new instance, [isLoading] is true
    exactly while the chain of the most recently started invocation has
    not yet run its [finally] handler.  So [isLoading] cannot stay true
    once that handler has run, and older chains never hold it up. *)
Theorem loading_iff_latest_in_progress inst d l st :
  run inst l (fresh d) = Some st →
  (isLoading st = true ↔ is_Some (chains st !! executeCounter st)).
Proof.
  intros Hrun.
  apply (run_consistent inst l (fresh d) st (fresh_consistent d) Hrun).
Qed.

Lemma loading_iff_latest_in_progress_witness :
  ∃ st, run easy [Execute (JStr "/a") JUndefined;
                  Execute (JStr "/b") JUndefined;
                  Fulfil 2 (reply 200 "0" "ok" JNull);
                  Finally 2]
            (fresh JUndefined) = Some st ∧
        isLoading st = false ∧ chains st !! 1 = Some AwaitsTransport ∧
        chains st !! executeCounter st = None.
Proof.
  eexists. split; [vm_compute; reflexivity|].
  split; [reflexivity|]. split; [vm_compute; reflexivity|].
  match goal with
  | |- chains ?s !! _ = _ =>
      pose proof (loading_iff_latest_in_progress easy JUndefined
                    [Execute (JStr "/a") JUndefined;
                     Execute (JStr "/b") JUndefined;
                     Fulfil 2 (reply 200 "0" "ok" JNull);
                     Finally 2] s ltac:(vm_compute; reflexivity)) as [_ H];
      destruct (chains s !! executeCounter s) as [p|] eqn:Hp;
        [|reflexivity]
  end.
  exfalso. assert (Hs : is_Some (Some p)) by eauto.
  apply H in Hs. vm_compute in Hs. discriminate Hs.
Defined.

(** ** Responses that are not envelopes *)

Lemma nullish_body_throws (v : jsval) (k : string) :
  v = JNull ∨ v = JUndefined → get_prop v k = None.
Proof. intros [->| ->]; reflexivity. Qed.

(** X14: a response whose body is [null] or [undefined] and whose status
    is not 401 makes the [then] handler throw a [TypeError] (after the
    [response] cell has been written, when the status is in 200..299).
    The [catch] handler that follows treats it like a transport failure:
    the [TypeError] goes to [error] and to [onError], the network-error
    toast is shown, and [data] and [onSuccess] are not touched. *)
Theorem null_body_reported_as_network_error inst res st k :
  Res.statusCode res ≠ 401%Z →
  Res.data res = JNull ∨ Res.data res = JUndefined →
  chains st !! k = Some AwaitsTransport →
  ∃ st1 st2,
    step inst (Fulfil k res) st = Some st1 ∧
    chains st1 !! k = Some (AwaitsCatch TypeError) ∧
    step inst (Catch k) st1 = Some st2 ∧
    error st2 = TypeError ∧
    data st2 = data st ∧
    response st2 =
      (if ((200 <=? Res.statusCode res) && (Res.statusCode res <? 300))%Z
       then Some res else response st) ∧
    effects st2 =
      effects st
        ++ toast (JStr "网络错误")
        :: match onError inst with JFun f => [Call f [TypeError]] | _ => [] end.
Proof.
  intros H401 Hbody Hk.
  set (s := if ((200 <=? Res.statusCode res) && (Res.statusCode res <? 300))%Z
            then set_response (Some res) st else st).
  assert (Hthrow : onFulfilled inst res st = Throw TypeError s).
  { unfold onFulfilled, s.
    destruct ((200 <=? Res.statusCode res) && (Res.statusCode res <? 300))%Z.
    - rewrite (nullish_body_throws _ "data" Hbody). reflexivity.
    - apply Z.eqb_neq in H401. rewrite H401.
      rewrite (nullish_body_throws _ "msg" Hbody). reflexivity. }
  set (s1 := set_chains (<[k := AwaitsCatch TypeError]> (chains s)) s).
  assert (Hs1 : step inst (Fulfil k res) st = Some s1).
  { simpl. rewrite Hk, Hthrow. reflexivity. }
  assert (Hk1 : chains s1 !! k = Some (AwaitsCatch TypeError)).
  { unfold s1. simpl. apply lookup_insert_eq. }
  pose proof (onRejected_frame inst TypeError s1) as Hfr.
  pose proof (onRejected_effects inst TypeError s1) as Heff.
  simpl in Hfr. destruct Hfr as (Hr & Hd & _ & _ & He & _).
  eexists s1, _. split; [exact Hs1|]. split; [exact Hk1|].
  split; [unfold step; rewrite Hk1; reflexivity|].
  cbn [error data response effects set_chains].
  split; [exact He|]. split; [|split].
  - rewrite Hd. unfold s1, s.
    destruct (_ && _)%Z; reflexivity.
  - rewrite Hr. unfold s1, s.
    destruct (_ && _)%Z; reflexivity.
  - rewrite Heff. unfold s1, s.
    destruct (_ && _)%Z; reflexivity.
Qed.

Lemma null_body_reported_as_network_error_witness :
  let res := {| Res.data := JNull; Res.statusCode := 204;
                Res.header := JObj ∅; Res.cookies := [] |} in
  ∃ st2,
    run observed [Fulfil 1 res; Catch 1] observed_loading = Some st2 ∧
    error st2 = TypeError ∧ response st2 = Some res ∧
    data st2 = JUndefined.
Proof.
  intros res.
  destruct (null_body_reported_as_network_error observed res
              observed_loading 1)
    as (st1 & st2 & H1 & _ & H2 & He & Hd & Hr & _);
    [discriminate|left; reflexivity|vm_compute; reflexivity|].
  exists st2. split; [cbn [run]; rewrite H1; cbn [run]; rewrite H2; reflexivity|].
  split; [exact He|]. split; [exact Hr|exact Hd].
Defined.

(** X15: a response whose body is neither [null] nor [undefined] and has
    no [data] property (a string, a number, an object without the key)
    still counts as a success when the status is in 200..299: [data] is
    overwritten with [undefined] and a supplied [onSuccess] is called with
    [undefined].  With another status (not 401) and no [msg] property the
    toast and [onError] get the fixed fallback message. *)
Theorem body_without_envelope inst res st :
  Res.data res ≠ JNull →
  Res.data res ≠ JUndefined →
  ((200 ≤ Res.statusCode res < 300)%Z →
   (∀ o, Res.data res = JObj o → o !! "data" = None) →
   let st' := after (onFulfilled inst res st) in
   data st' = JUndefined ∧ response st' = Some res ∧
   effects st' =
     effects st
       ++ match onSuccess inst with JFun f => [Call f [JUndefined]] | _ => [] end) ∧
  (¬ (200 ≤ Res.statusCode res < 300)%Z →
   Res.statusCode res ≠ 401%Z →
   (∀ o, Res.data res = JObj o → o !! "msg" = None) →
   let st' := after (onFulfilled inst res st) in
   data st' = data st ∧ response st' = response st ∧
   effects st' =
     effects st
       ++ toast (JStr "请求错误")
       :: match onError inst with
          | JFun f => [Call f [JStr "请求错误"]]
          | _ => []
          end).
Proof.
  intros Hnull Hundef.
  assert (Hget : ∀ key, (∀ o, Res.data res = JObj o → o !! key = None) →
                        get_prop (Res.data res) key = Some JUndefined).
  { intros key Hkey. destruct (Res.data res) as [| | | | | |o] eqn:Hb;
      try reflexivity; try contradiction.
    simpl. rewrite (Hkey o eq_refl). reflexivity. }
  split.
  - intros [Hlo Hhi] Hkey. unfold onFulfilled.
    apply Z.leb_le in Hlo. apply Z.ltb_lt in Hhi. rewrite Hlo, Hhi.
    cbn [andb]. rewrite (Hget "data" Hkey). cbv zeta.
    pose proof (call_opt_frame (onSuccess inst) [JUndefined]
                  (set_data JUndefined (set_response (Some res) st))) as Hfr.
    simpl in Hfr. destruct Hfr as (Hr & Hd & _).
    split; [exact Hd|]. split; [exact Hr|].
    rewrite call_opt_effects. reflexivity.
  - intros Hrange H401 Hkey. unfold onFulfilled.
    replace ((200 <=? Res.statusCode res)%Z && (Res.statusCode res <? 300)%Z)
      with false
      by (symmetry; apply andb_false_iff;
          rewrite Z.leb_gt, Z.ltb_ge; lia).
    apply Z.eqb_neq in H401. rewrite H401.
    rewrite (Hget "msg" Hkey). cbv zeta.
    change (js_or JUndefined (JStr "请求错误")) with (JStr "请求错误").
    pose proof (call_opt_frame (onError inst) [JStr "请求错误"]
                  (showToast (JStr "请求错误") st)) as Hfr.
    simpl in Hfr. destruct Hfr as (Hr & Hd & _).
    split; [exact Hd|]. split; [exact Hr|].
    rewrite call_opt_effects. unfold showToast, emit, toast.
    cbn [effects]. rewrite <- app_assoc. reflexivity.
Qed.

Lemma body_without_envelope_witness :
  let res := {| Res.data := JStr "pong"; Res.statusCode := 200;
                Res.header := JObj ∅; Res.cookies := [] |} in
  let st := after (onFulfilled observed (reply 200 "0" "ok" (JNum 7))
                     observed_loading) in
  data st = JNum 7 ∧
  data (after (onFulfilled observed res st)) = JUndefined.
Proof.
  intros res st. split; [reflexivity|].
  destruct (body_without_envelope observed res st) as (Hok & _);
    [discriminate|discriminate|].
  apply Hok; [simpl; lia|intros o Ho; discriminate Ho].
Defined.

(** ** One request from start to finish *)

(** A request that nothing overlaps, answered by the transport: [execute],
    the [then] handler (which returns), the [finally] handler. *)
Lemma uninterrupted_fulfilled inst executeUrl config st res :
  reaches_transport inst executeUrl config = true →
  let k := executeCounter st + 1 in
  let s1 := after (execute inst executeUrl config st) in
  let s2 := after (onFulfilled inst res s1) in
  returns (onFulfilled inst res s1) = true →
  ∃ st',
    run inst [Execute executeUrl config; Fulfil k res; Finally k] st
      = Some st' ∧
    isLoading st' = false ∧ isFinished st' = true ∧
    error st' = JUndefined ∧
    data st' = data s2 ∧ response st' = response s2 ∧
    executeCounter st' = k ∧
    chains st' = delete k (chains st) ∧
    effects st' =
      effects s2
        ++ match onFinish inst with JFun f => [Call f []] | _ => [] end ∧
    waitUntilFinished [st'] 0 = Resolved ∧
    waitUntilFinished
      (trace inst [Execute executeUrl config; Fulfil k res; Finally k] st) 0
      = Resolved.
Proof.
  intros Hreach k s1 s2 Hret.
  apply reaches_transport_true in Hreach as (u & Hr & Hu).
  destruct (execute_to_transport inst executeUrl config st u Hr Hu)
    as (s & He & _ & Hf1 & Herr & _ & _ & Hc & Hch & _).
  assert (Hs1 : s1 = s) by (unfold s1; rewrite He; reflexivity).
  pose proof (onFulfilled_frame inst res s1) as Hfr. fold s2 in Hfr.
  simpl in Hfr. destruct Hfr as (Hf2 & _ & Herr2 & Hc2 & Hch2).
  destruct (onFulfilled inst res s1) as [s2'|e s2'] eqn:Hful;
    [|discriminate Hret].
  assert (Hs2 : s2 = s2') by (unfold s2; rewrite ?Hful; reflexivity).
  set (s3 := set_chains (<[k := AwaitsFinally]> (chains s2)) s2).
  assert (Hstep2 : step inst (Fulfil k res) s1 = Some s3).
  { assert (Hlk : chains s1 !! k = Some AwaitsTransport)
      by (rewrite Hs1, Hch; apply lookup_insert_eq).
    unfold step. rewrite Hlk, Hful. unfold s3. rewrite Hs2. reflexivity. }
  assert (Hk3 : executeCounter s3 = k).
  { unfold s3. cbn [executeCounter set_chains]. rewrite Hc2, Hs1, Hc.
    reflexivity. }
  pose proof (onFinally_live inst s3) as Hlive. rewrite Hk3 in Hlive.
  simpl in Hlive.
  destruct Hlive as (Hil & Hif & Hre & Hda & Her & Hco & Hcha & Hef).
  assert (Herr3 : error (after (onFinally inst k s3)) = JUndefined)
    by (rewrite Her, Herr2, Hs1; exact Herr).
  set (s4 := set_chains (delete k (chains (after (onFinally inst k s3))))
               (after (onFinally inst k s3))).
  assert (Hstep3 : step inst (Finally k) s3 = Some s4).
  { unfold step. unfold s3 at 1. cbn [chains set_chains].
    rewrite lookup_insert_eq. reflexivity. }
  assert (Hs4 : settle s4 = Resolved)
    by (unfold settle, s4; cbn [error set_chains]; rewrite Herr3; reflexivity).
  exists s4. split.
  { cbn [run]. unfold step at 1. fold s1. rewrite Hstep2, Hstep3.
    reflexivity. }
  unfold s4.
  cbn [isLoading isFinished error data response executeCounter chains
       effects set_chains].
  fold s4.
  split; [exact Hil|]. split; [exact Hif|].
  split; [exact Herr3|].
  split; [exact Hda|]. split; [exact Hre|].
  split; [exact Hco|].
  split; [|split; [exact Hef|split]].
  - rewrite Hcha, delete_insert_eq, Hch2, Hs1, Hch. fold k.
    rewrite delete_insert_eq. reflexivity.
  - rewrite <- Hs4. apply (wait_over_at_last []); [constructor|exact Hif].
  - cbn [trace]. unfold step at 1. fold s1. rewrite Hstep2, Hstep3.
    rewrite <- Hs4. apply (wait_over_at_last [s1; s3]); [|exact Hif].
    repeat constructor; [rewrite Hs1; exact Hf1|].
    unfold s3. cbn [isFinished set_chains]. rewrite Hf2, Hs1. exact Hf1.
Qed.

Lemma call_opt_returns f args st :
  callable_or_absent f = true → returns (call_opt f args st) = true.
Proof. destruct f; simpl; intros H; try discriminate H; reflexivity. Qed.


(** X16: a request that nothing overlaps and that the transport answers
    with a status outside 200..299 ends like a success as far as the
    thenable goes: [isFinished] becomes true, [error] stays [undefined] and
    the thenable resolves, for a [then] called right after [execute] as
    for one called when the request has finished.  (For a status other
    than 401 this needs a body that is not [null]/[undefined] and an
    [onError] that can be called.)  The [response] cell is not written: it
    keeps the last successful response. *)
Theorem error_status_resolves inst executeUrl config st res :
  reaches_transport inst executeUrl config = true →
  ¬ (200 ≤ Res.statusCode res < 300)%Z →
  Res.statusCode res = 401%Z ∨
  (Res.data res ≠ JNull ∧ Res.data res ≠ JUndefined ∧
   callable_or_absent (onError inst) = true) →
  let k := executeCounter st + 1 in
  ∃ st',
    run inst [Execute executeUrl config; Fulfil k res; Finally k] st
      = Some st' ∧
    isLoading st' = false ∧ isFinished st' = true ∧
    error st' = JUndefined ∧
    waitUntilFinished [st'] 0 = Resolved ∧
    waitUntilFinished
      (trace inst [Execute executeUrl config; Fulfil k res; Finally k] st) 0
      = Resolved ∧
    response st' = response st.
Proof.
  intros Hreach Hrange Hcase k.
  set (s1 := after (execute inst executeUrl config st)).
  assert (Hnot : ((200 <=? Res.statusCode res)%Z
                  && (Res.statusCode res <? 300)%Z) = false)
    by (apply andb_false_iff; rewrite Z.leb_gt, Z.ltb_ge; lia).
  assert (Hful : returns (onFulfilled inst res s1) = true ∧
                 response (after (onFulfilled inst res s1)) = response s1).
  { unfold onFulfilled. rewrite Hnot.
    destruct (Res.statusCode res =? 401)%Z eqn:H401; [split; reflexivity|].
    destruct Hcase as [H|(Hn & Hu & Hcall)].
    { apply Z.eqb_neq in H401. contradiction. }
    destruct (Res.data res) eqn:Hb; try contradiction; cbn [get_prop];
      cbv zeta;
      (split; [apply call_opt_returns; exact Hcall|]);
      match goal with
      | |- response (after (call_opt ?f ?a ?s)) = _ =>
          exact (proj1 (call_opt_frame f a s))
      end. }
  destruct Hful as (Hret & Hresp).
  destruct (uninterrupted_fulfilled inst executeUrl config st res Hreach Hret)
    as (st' & Hrun & Hil & Hif & Herr & _ & Hre & _ & _ & _ & Hw & Hwt).
  exists st'. split; [exact Hrun|].
  split; [exact Hil|]. split; [exact Hif|]. split; [exact Herr|].
  split; [exact Hw|]. split; [exact Hwt|].
  - rewrite Hre. fold s1. rewrite Hresp. unfold s1.
    apply reaches_transport_true in Hreach as (u & Hr & Hu).
    destruct (execute_to_transport inst executeUrl config st u Hr Hu)
      as (s & -> & _ & _ & _ & Hrs & _).
    exact Hrs.
Qed.

Lemma error_status_resolves_witness :
  ∃ st',
    run observed [Execute (JStr "/a") JUndefined;
                  Fulfil 1 (reply 500 "E" "boom" JNull); Finally 1]
        (fresh JUndefined) = Some st' ∧
    waitUntilFinished [st'] 0 = Resolved ∧ response st' = None.
Proof.
  destruct (error_status_resolves observed (JStr "/a") JUndefined
              (fresh JUndefined) (reply 500 "E" "boom" JNull))
    as (st' & Hrun & _ & _ & _ & Hw & _ & Hr);
    [reflexivity|simpl; lia
    |right; split; [discriminate|split; [discriminate|reflexivity]]|].
  exists st'. split; [exact Hrun|]. split; [exact Hw|exact Hr].
Defined.

(** X17: a request that nothing overlaps and that the transport answers
    with a status in 200..299 and an envelope carrying [data: D] ends
    with [data = D], the raw response in [response], [isLoading] false,
    [isFinished] true and [error] unset, so the thenable resolves (for a
    [then] called right after [execute] as for one called when the
    request has finished).  Along
    the way exactly three calls leave the composable, in this order: the
    transport, a supplied [onSuccess] with [D], a supplied [onFinish].
    The chain is gone afterwards. *)
Theorem successful_request_round_trip inst executeUrl config st res o D :
  reaches_transport inst executeUrl config = true →
  (200 ≤ Res.statusCode res < 300)%Z →
  Res.data res = JObj o →
  o !! "data" = Some D →
  callable_or_absent (onSuccess inst) = true →
  let k := executeCounter st + 1 in
  ∃ st' _url,
    run inst [Execute executeUrl config; Fulfil k res; Finally k] st
      = Some st' ∧
    resolve_url inst executeUrl config = Some _url ∧
    data st' = D ∧ response st' = Some res ∧
    isLoading st' = false ∧ isFinished st' = true ∧
    error st' = JUndefined ∧
    waitUntilFinished [st'] 0 = Resolved ∧
    waitUntilFinished
      (trace inst [Execute executeUrl config; Fulfil k res; Finally k] st) 0
      = Resolved ∧
    chains st' = delete k (chains st) ∧
    effects st' =
      effects st
        ++ Request (descriptor inst _url)
        :: match onSuccess inst with JFun f => [Call f [D]] | _ => [] end
        ++ match onFinish inst with JFun f => [Call f []] | _ => [] end.
Proof.
  intros Hreach [Hlo Hhi] Ho HD Hcall k.
  set (s1 := after (execute inst executeUrl config st)).
  apply Z.leb_le in Hlo. apply Z.ltb_lt in Hhi.
  assert (Hful : returns (onFulfilled inst res s1) = true ∧
                 data (after (onFulfilled inst res s1)) = D ∧
                 response (after (onFulfilled inst res s1)) = Some res ∧
                 effects (after (onFulfilled inst res s1)) =
                   effects s1
                     ++ match onSuccess inst with
                        | JFun f => [Call f [D]]
                        | _ => []
                        end).
  { unfold onFulfilled. rewrite Hlo, Hhi. cbn [andb].
    rewrite Ho. cbn [get_prop]. rewrite HD. cbn [default]. cbv zeta.
    pose proof (call_opt_frame (onSuccess inst) [D]
                  (set_data D (set_response (Some res) s1))) as Hfr.
    simpl in Hfr. destruct Hfr as (Hr & Hd & _).
    split; [apply call_opt_returns; exact Hcall|].
    split; [exact Hd|]. split; [exact Hr|].
    rewrite call_opt_effects. reflexivity. }
  destruct Hful as (Hret & Hd2 & Hr2 & He2).
  destruct (uninterrupted_fulfilled inst executeUrl config st res Hreach Hret)
    as (st' & Hrun & Hil & Hif & Herr & Hda & Hre & _ & Hch & Hef & Hw & Hwt).
  fold s1 in Hda, Hre, Hef.
  apply reaches_transport_true in Hreach as (u & Hr & Hu).
  destruct (execute_to_transport inst executeUrl config st u Hr Hu)
    as (s & Hex & _ & _ & _ & _ & _ & _ & _ & He1).
  assert (Hs1 : s1 = s) by (unfold s1; rewrite Hex; reflexivity).
  exists st', u. split; [exact Hrun|]. split; [exact Hr|].
  split; [rewrite Hda; exact Hd2|]. split; [rewrite Hre; exact Hr2|].
  split; [exact Hil|]. split; [exact Hif|]. split; [exact Herr|].
  split; [exact Hw|]. split; [exact Hwt|]. split; [exact Hch|].
  rewrite Hef, He2, Hs1, He1. rewrite <- !app_assoc. reflexivity.
Qed.

Lemma successful_request_round_trip_witness :
  ∃ st',
    run observed [Execute (JStr "/a") JUndefined;
                  Fulfil 1 (reply 200 "0" "ok" (JNum 7)); Finally 1]
        (fresh JUndefined) = Some st' ∧
    data st' = JNum 7 ∧ waitUntilFinished [st'] 0 = Resolved ∧
    effects st' =
      [Request (descriptor observed (JStr "/a"));
       Call "onSuccess" [JNum 7]; Call "onFinish" []].
Proof.
  destruct (successful_request_round_trip observed (JStr "/a") JUndefined
              (fresh JUndefined) (reply 200 "0" "ok" (JNum 7))
              {[ "code" := JStr "0"; "msg" := JStr "ok"; "data" := JNum 7 ]}
              (JNum 7))
    as (st' & u & Hrun & Hu & Hd & _ & _ & _ & _ & Hw & _ & _ & He);
    [reflexivity|simpl; lia|reflexivity|vm_compute; reflexivity
    |reflexivity|].
  exists st'. split; [exact Hrun|]. split; [exact Hd|]. split; [exact Hw|].
  rewrite He. vm_compute in Hu. injection Hu as <-. reflexivity.
Defined.

(** ** Overlapping requests, turn by turn *)

Section Turns.
Variable inst : Instance.

Lemma execute_turn executeUrl config s :
  reaches_transport inst executeUrl config = true →
  ∃ s' _url,
    step inst (Execute executeUrl config) s = Some s' ∧
    resolve_url inst executeUrl config = Some _url ∧
    isLoading s' = true ∧ isFinished s' = false ∧ error s' = JUndefined ∧
    response s' = response s ∧
    executeCounter s' = executeCounter s + 1 ∧
    chains s' = <[executeCounter s + 1 := AwaitsTransport]> (chains s) ∧
    effects s' = effects s ++ [Request (descriptor inst _url)].
Proof.
  intros Hreach. apply reaches_transport_true in Hreach as (u & Hr & Hu).
  destruct (execute_to_transport inst executeUrl config s u Hr Hu)
    as (s' & He & Hl & Hf & Herr & Hre & _ & Hc & Hch & Hef).
  exists s', u. split; [simpl; rewrite He; reflexivity|].
  repeat split; assumption.
Qed.

Lemma fulfil_turn k res s o D :
  chains s !! k = Some AwaitsTransport →
  (200 ≤ Res.statusCode res < 300)%Z →
  Res.data res = JObj o → o !! "data" = Some D →
  callable_or_absent (onSuccess inst) = true →
  ∃ s',
    step inst (Fulfil k res) s = Some s' ∧
    data s' = D ∧ response s' = Some res ∧
    isLoading s' = isLoading s ∧ isFinished s' = isFinished s ∧
    error s' = error s ∧ executeCounter s' = executeCounter s ∧
    chains s' = <[k := AwaitsFinally]> (chains s) ∧
    effects s' =
      effects s
        ++ match onSuccess inst with JFun f => [Call f [D]] | _ => [] end.
Proof.
  intros Hk [Hlo Hhi] Ho HD Hcall.
  apply Z.leb_le in Hlo. apply Z.ltb_lt in Hhi.
  pose proof (call_opt_frame (onSuccess inst) [D]
                (set_data D (set_response (Some res) s))) as Hfr.
  pose proof (call_opt_effects (onSuccess inst) [D]
                (set_data D (set_response (Some res) s))) as Hef.
  pose proof (call_opt_returns (onSuccess inst) [D]
                (set_data D (set_response (Some res) s)) Hcall) as Hret.
  assert (Hful : onFulfilled inst res s =
                 call_opt (onSuccess inst) [D]
                   (set_data D (set_response (Some res) s))).
  { unfold onFulfilled. rewrite Hlo, Hhi. cbn [andb].
    rewrite Ho. cbn [get_prop]. rewrite HD. reflexivity. }
  destruct (call_opt (onSuccess inst) [D]
              (set_data D (set_response (Some res) s))) as [s2|e s2];
    [|discriminate Hret].
  simpl in Hfr, Hef. destruct Hfr as (Hr & Hd & Hf & Hl & He & Hc & Hch).
  eexists. split; [unfold step; rewrite Hk, Hful; reflexivity|].
  cbn [data response isLoading isFinished error executeCounter chains
       effects set_chains].
  rewrite Hch. repeat split; assumption.
Qed.

Lemma reject_turn k e s :
  chains s !! k = Some AwaitsTransport →
  ∃ s',
    step inst (Reject k e) s = Some s' ∧
    error s' = e ∧ data s' = data s ∧ response s' = response s ∧
    isLoading s' = isLoading s ∧ isFinished s' = isFinished s ∧
    executeCounter s' = executeCounter s ∧
    chains s' = <[k := AwaitsFinally]> (chains s) ∧
    effects s' =
      effects s
        ++ toast (JStr "网络错误")
        :: match onError inst with JFun f => [Call f [e]] | _ => [] end.
Proof.
  intros Hk.
  pose proof (onRejected_frame inst e s) as Hfr.
  pose proof (onRejected_effects inst e s) as Hef.
  simpl in Hfr. destruct Hfr as (Hr & Hd & Hf & Hl & He & Hc & Hch).
  eexists. split; [unfold step; rewrite Hk; reflexivity|].
  cbn [data response isLoading isFinished error executeCounter chains
       effects set_chains].
  rewrite Hch. repeat split; assumption.
Qed.

Lemma finally_turn_live k s :
  chains s !! k = Some AwaitsFinally →
  k = executeCounter s →
  ∃ s',
    step inst (Finally k) s = Some s' ∧
    isLoading s' = false ∧ isFinished s' = true ∧
    data s' = data s ∧ response s' = response s ∧ error s' = error s ∧
    executeCounter s' = executeCounter s ∧
    chains s' = delete k (chains s) ∧
    effects s' =
      effects s
        ++ match onFinish inst with JFun f => [Call f []] | _ => [] end.
Proof.
  intros Hk ->.
  pose proof (onFinally_live inst s) as H. simpl in H.
  destruct H as (Hl & Hf & Hr & Hd & He & Hc & Hch & Hef).
  eexists. split; [unfold step; rewrite Hk; reflexivity|].
  cbn [data response isLoading isFinished error executeCounter chains
       effects set_chains].
  rewrite Hch. repeat split; assumption.
Qed.

Lemma finally_turn_stale k s :
  chains s !! k = Some AwaitsFinally →
  k ≠ executeCounter s →
  step inst (Finally k) s = Some (set_chains (delete k (chains s)) s).
Proof.
  intros Hk Hne. unfold step. rewrite Hk.
  rewrite (onFinally_stale inst k s Hne). reflexivity.
Qed.
End Turns.

(** Simplify a lookup in a map built by inserts and deletes at the two
    generations of a pair of overlapping requests. *)
Ltac chain_lookup :=
  repeat first
    [ rewrite lookup_insert_eq
    | rewrite lookup_delete_eq
    | rewrite lookup_insert_ne by lia
    | rewrite lookup_delete_ne by lia ];
  try reflexivity.

(** X18: the response that arrives last is the one that stays.  Request A
    starts, then request B; B is answered and finishes first, then A is
    answered.  In the end [data] and [response] hold A's answer, although
    B is the most recently started request; the flags stay as B's
    completion left them and [onFinish] has run once, for B. *)
Theorem last_response_wins inst a1 c1 a2 c2 st resA resB oA oB DA DB :
  reaches_transport inst a1 c1 = true →
  reaches_transport inst a2 c2 = true →
  (200 ≤ Res.statusCode resA < 300)%Z →
  Res.data resA = JObj oA → oA !! "data" = Some DA →
  (200 ≤ Res.statusCode resB < 300)%Z →
  Res.data resB = JObj oB → oB !! "data" = Some DB →
  callable_or_absent (onSuccess inst) = true →
  let kA := executeCounter st + 1 in
  let kB := executeCounter st + 2 in
  ∃ st' uA uB,
    run inst [Execute a1 c1; Execute a2 c2;
              Fulfil kB resB; Finally kB;
              Fulfil kA resA; Finally kA] st = Some st' ∧
    data st' = DA ∧ response st' = Some resA ∧
    isLoading st' = false ∧ isFinished st' = true ∧
    executeCounter st' = kB ∧
    effects st' =
      effects st
        ++ [Request (descriptor inst uA); Request (descriptor inst uB)]
        ++ match onSuccess inst with JFun f => [Call f [DB]] | _ => [] end
        ++ match onFinish inst with JFun f => [Call f []] | _ => [] end
        ++ match onSuccess inst with JFun f => [Call f [DA]] | _ => [] end.
Proof.
  intros HA HB HrA HoA HDA HrB HoB HDB Hcall kA kB.
  destruct (execute_turn inst a1 c1 st HA)
    as (s1 & uA & H1 & _ & _ & _ & _ & _ & Hc1 & Hch1 & He1).
  destruct (execute_turn inst a2 c2 s1 HB)
    as (s2 & uB & H2 & _ & _ & _ & _ & _ & Hc2 & Hch2 & He2).
  rewrite Hc1 in Hc2, Hch2.
  replace (executeCounter st + 1 + 1) with kB in Hc2, Hch2 by (unfold kB; lia).
  fold kA in Hch1. rewrite Hch1 in Hch2.
  assert (HkAB : kA ≠ kB) by (unfold kA, kB; lia).
  destruct (fulfil_turn inst kB resB s2 oB DB)
    as (s3 & H3 & _ & _ & _ & _ & _ & Hc3 & Hch3 & He3); try assumption.
  { rewrite Hch2. chain_lookup. }
  destruct (finally_turn_live inst kB s3)
    as (s4 & H4 & Hl4 & Hf4 & _ & _ & _ & Hc4 & Hch4 & He4).
  { rewrite Hch3. chain_lookup. }
  { rewrite Hc3, Hc2. reflexivity. }
  destruct (fulfil_turn inst kA resA s4 oA DA)
    as (s5 & H5 & Hd5 & Hr5 & Hl5 & Hf5 & _ & Hc5 & Hch5 & He5);
    try assumption.
  { rewrite Hch4, Hch3, Hch2. unfold kA, kB. chain_lookup. }
  pose proof (finally_turn_stale inst kA s5) as H6.
  rewrite Hch5 in H6 at 1. rewrite lookup_insert_eq in H6.
  specialize (H6 eq_refl).
  rewrite Hc5, Hc4, Hc3, Hc2 in H6. specialize (H6 HkAB).
  eexists _, uA, uB. split.
  { cbn [run]. rewrite H1. cbn [run]. rewrite H2. cbn [run]. rewrite H3.
    cbn [run]. rewrite H4. cbn [run]. rewrite H5. cbn [run]. rewrite H6.
    reflexivity. }
  cbn [data response isLoading isFinished executeCounter effects set_chains].
  split; [exact Hd5|]. split; [exact Hr5|].
  split; [rewrite Hl5; exact Hl4|]. split; [rewrite Hf5; exact Hf4|].
  split; [rewrite Hc5, Hc4, Hc3; exact Hc2|].
  rewrite He5, He4, He3, He2, He1. rewrite <- !app_assoc. reflexivity.
Qed.

Lemma last_response_wins_witness :
  ∃ st',
    run observed [Execute (JStr "/a") JUndefined; Execute (JStr "/b") JUndefined;
                  Fulfil 2 (reply 200 "0" "ok" (JStr "b")); Finally 2;
                  Fulfil 1 (reply 200 "0" "ok" (JStr "a")); Finally 1]
        (fresh JUndefined) = Some st' ∧
    data st' = JStr "a" ∧ isLoading st' = false ∧ isFinished st' = true.
Proof.
  destruct (last_response_wins observed
              (JStr "/a") JUndefined (JStr "/b") JUndefined (fresh JUndefined)
              (reply 200 "0" "ok" (JStr "a")) (reply 200 "0" "ok" (JStr "b"))
              {[ "code" := JStr "0"; "msg" := JStr "ok"; "data" := JStr "a" ]}
              {[ "code" := JStr "0"; "msg" := JStr "ok"; "data" := JStr "b" ]}
              (JStr "a") (JStr "b"))
    as (st' & _ & _ & Hrun & Hd & _ & Hl & Hf & _);
    [reflexivity|reflexivity|simpl; lia|reflexivity|vm_compute; reflexivity
    |simpl; lia|reflexivity|vm_compute; reflexivity|reflexivity|].
  exists st'. split; [exact Hrun|]. split; [exact Hd|].
  split; [exact Hl|exact Hf].
Defined.

(** X19: a failure of a superseded request surfaces on the newer one.
    Request A starts, then request B; A's transport call rejects with the
    failure object [e], then B is answered successfully and finishes.  At
    the end [data] holds B's answer, but [error] still holds [e] and the
    thenable rejects with [e] (for a [then] called right after the first
    [execute] as for one called when B has finished). *)
Theorem stale_failure_rejects_newer_request
    inst a1 c1 a2 c2 st (oe : gmap string jsval) resB oB DB :
  reaches_transport inst a1 c1 = true →
  reaches_transport inst a2 c2 = true →
  (200 ≤ Res.statusCode resB < 300)%Z →
  Res.data resB = JObj oB → oB !! "data" = Some DB →
  callable_or_absent (onSuccess inst) = true →
  let kA := executeCounter st + 1 in
  let kB := executeCounter st + 2 in
  ∃ st',
    run inst [Execute a1 c1; Execute a2 c2;
              Reject kA (JObj oe); Finally kA;
              Fulfil kB resB; Finally kB] st = Some st' ∧
    data st' = DB ∧ response st' = Some resB ∧
    isLoading st' = false ∧ isFinished st' = true ∧
    error st' = JObj oe ∧
    waitUntilFinished [st'] 0 = Rejected (JObj oe) ∧
    waitUntilFinished
      (trace inst [Execute a1 c1; Execute a2 c2;
                   Reject kA (JObj oe); Finally kA;
                   Fulfil kB resB; Finally kB] st) 0 = Rejected (JObj oe).
Proof.
  intros HA HB HrB HoB HDB Hcall kA kB.
  destruct (execute_turn inst a1 c1 st HA)
    as (s1 & uA & H1 & _ & _ & Hf1 & _ & _ & Hc1 & Hch1 & _).
  destruct (execute_turn inst a2 c2 s1 HB)
    as (s2 & uB & H2 & _ & _ & Hf2 & _ & _ & Hc2 & Hch2 & _).
  rewrite Hc1 in Hc2, Hch2.
  replace (executeCounter st + 1 + 1) with kB in Hc2, Hch2 by (unfold kB; lia).
  fold kA in Hch1. rewrite Hch1 in Hch2.
  assert (HkAB : kA ≠ kB) by (unfold kA, kB; lia).
  destruct (reject_turn inst kA (JObj oe) s2)
    as (s3 & H3 & He3 & _ & _ & _ & Hf3 & Hc3 & Hch3 & _).
  { rewrite Hch2. unfold kA, kB. chain_lookup. }
  pose proof (finally_turn_stale inst kA s3) as H4.
  rewrite Hch3 in H4 at 1. rewrite lookup_insert_eq in H4.
  specialize (H4 eq_refl). rewrite Hc3, Hc2 in H4. specialize (H4 HkAB).
  set (s4 := set_chains (delete kA (chains s3)) s3) in H4.
  destruct (fulfil_turn inst kB resB s4 oB DB)
    as (s5 & H5 & Hd5 & Hr5 & _ & Hf5 & He5 & Hc5 & Hch5 & _);
    try assumption.
  { unfold s4. cbn [chains set_chains]. rewrite Hch3, Hch2.
    unfold kA, kB. chain_lookup. }
  destruct (finally_turn_live inst kB s5)
    as (s6 & H6 & Hl6 & Hf6 & Hd6 & Hr6 & He6 & _).
  { rewrite Hch5. chain_lookup. }
  { rewrite Hc5. unfold s4. cbn [executeCounter set_chains].
    rewrite Hc3, Hc2. reflexivity. }
  assert (Herr : error s6 = JObj oe).
  { rewrite He6, He5. unfold s4. cbn [error set_chains]. exact He3. }
  exists s6. split.
  { cbn [run]. rewrite H1. cbn [run]. rewrite H2. cbn [run]. rewrite H3.
    cbn [run]. rewrite H4. cbn [run]. rewrite H5. cbn [run]. rewrite H6.
    reflexivity. }
  split; [rewrite Hd6; exact Hd5|]. split; [rewrite Hr6; exact Hr5|].
  split; [exact Hl6|]. split; [exact Hf6|]. split; [exact Herr|].
  assert (Hs6 : settle s6 = Rejected (JObj oe))
    by (unfold settle; rewrite Herr; reflexivity).
  rewrite <- Hs6. split.
  - apply (wait_over_at_last []); [constructor|exact Hf6].
  - cbn [trace]. rewrite H1. cbn [trace]. rewrite H2. cbn [trace]. rewrite H3.
    cbn [trace]. rewrite H4. cbn [trace]. rewrite H5. cbn [trace]. rewrite H6.
    apply (wait_over_at_last [s1; s2; s3; s4; s5]); [|exact Hf6].
    assert (Hf4 : isFinished s4 = false)
      by (unfold s4; cbn [isFinished set_chains]; rewrite Hf3; exact Hf2).
    assert (Hf3' : isFinished s3 = false) by (rewrite Hf3; exact Hf2).
    assert (Hf5' : isFinished s5 = false) by (rewrite Hf5; exact Hf4).
    repeat constructor; assumption.
Qed.

Lemma stale_failure_rejects_newer_request_witness :
  ∃ st',
    run easy [Execute (JStr "/a") JUndefined; Execute (JStr "/b") JUndefined;
              Reject 1 (failure "request:fail timeout"); Finally 1;
              Fulfil 2 (reply 200 "0" "ok" (JStr "b")); Finally 2]
        (fresh JUndefined) = Some st' ∧
    data st' = JStr "b" ∧
    waitUntilFinished [st'] 0 = Rejected (failure "request:fail timeout").
Proof.
  destruct (stale_failure_rejects_newer_request easy
              (JStr "/a") JUndefined (JStr "/b") JUndefined (fresh JUndefined)
              {[ "errMsg" := JStr "request:fail timeout" ]}
              (reply 200 "0" "ok" (JStr "b"))
              {[ "code" := JStr "0"; "msg" := JStr "ok"; "data" := JStr "b" ]}
              (JStr "b"))
    as (st' & Hrun & Hd & _ & _ & _ & _ & Hw & _);
    [reflexivity|reflexivity|simpl; lia|reflexivity|vm_compute; reflexivity
    |reflexivity|].
  exists st'. split; [exact Hrun|]. split; [exact Hd|exact Hw].
Defined.

(** ** The earlier variant against the current one *)


(** X21: in the earlier variant the [catch] handler never returns: after
    writing [error] and showing the toast it throws, a [TypeError] when
    the failure value is [null] or [undefined] and otherwise a new
    [Error] made from its [errMsg]; so every transport failure leaves the
    chain rejected.  The current handler returns normally whenever
    [onError] is absent or a function. *)
Theorem legacy_catch_always_throws inst new_Error e st :
  returns (Legacy.onRejected new_Error e st) = false ∧
  error (after (Legacy.onRejected new_Error e st)) = e ∧
  (∀ errMsg, get_prop e "errMsg" = Some errMsg →
     ∃ st', Legacy.onRejected new_Error e st = Throw (new_Error errMsg) st') ∧
  (e = JNull ∨ e = JUndefined →
     ∃ st', Legacy.onRejected new_Error e st = Throw TypeError st') ∧
  (callable_or_absent (onError inst) = true →
     returns (onRejected inst e st) = true).
Proof.
  unfold Legacy.onRejected.
  split; [destruct (get_prop e "errMsg"); reflexivity|].
  split; [destruct (get_prop e "errMsg"); reflexivity|].
  split; [|split].
  - intros m ->. eexists. reflexivity.
  - intros He. rewrite (nullish_body_throws e "errMsg" He).
    eexists. reflexivity.
  - intros Hc. unfold onRejected. apply call_opt_returns. exact Hc.
Qed.

Lemma legacy_catch_always_throws_witness :
  ∃ st', Legacy.onRejected
           (fun m => JObj {[ "name" := JStr "Error"; "message" := m ]})
           (failure "request:fail timeout") observed_loading
         = Throw (JObj {[ "name" := JStr "Error";
                          "message" := JStr "request:fail timeout" ]}) st'.
Proof.
  destruct (legacy_catch_always_throws observed
              (fun m => JObj {[ "name" := JStr "Error"; "message" := m ]})
              (failure "request:fail timeout") observed_loading)
    as (_ & _ & Hthrow & _).
  apply (Hthrow (JStr "request:fail timeout")). vm_compute. reflexivity.
Defined.

